(** * lei-crm-mkt: the message-sequence scheduler of the WhatsApp CRM

    A shallow embedding of [src/server.js].  The file holds two modules of
    the repository one after the other: the HTTP gateway (lines 1-237) and
    [scheduler.js] (lines 239-413), which carries the task lock, the phone
    helpers, the template renderer, [enviarMensaje] and [processSequences].

    JavaScript strings are sequences of UTF-16 code units; they are
    modelled as lists of code units, so that [length], [slice],
    [startsWith], the regular-expression classes and [encodeURIComponent]
    read as in the language definition. *)

From Stdlib Require Import ZArith NArith Ascii String Lia.
From stdpp Require Import base tactics option list gmap.

Local Open Scope N_scope.

(** ** JavaScript strings and the built-ins the code calls *)

Module JS.

(** A string value: its UTF-16 code units, in order. *)
Definition jsstring := list N.

(** A literal of the source, read as its code units (the literals of the
    source that matter here are ASCII). *)
Definition lit (s : string) : jsstring :=
  map N_of_ascii (list_ascii_of_string s).
Arguments lit _%_string.

(** A string is truthy when it is not empty. *)
Definition truthy (s : jsstring) : bool :=
  match s with [] => false | _ :: _ => true end.

(** [a || b] where both are strings or [undefined]: the first operand when
    it is truthy, the second otherwise. *)
Definition js_or (a b : option jsstring) : option jsstring :=
  match a with
  | Some s => if truthy s then a else b
  | None => b
  end.

(** [String(v || '')] and [v || '']: a string whatever [v] was. *)
Definition or_empty (v : option jsstring) : jsstring :=
  match js_or v (Some []) with Some s => s | None => [] end.

Definition between (lo hi c : N) : bool := (lo <=? c) && (c <=? hi).

(** The class [\d] (no [u] flag): [0-9]. *)
Definition is_digit (c : N) : bool := between 48 57 c.

(** The class [\w]: [A-Za-z0-9_]. *)
Definition is_word (c : N) : bool :=
  between 97 122 c || between 65 90 c || is_digit c || (c =? 95).

(** The class [\s], which is also what [trim] removes: WhiteSpace and
    LineTerminator of ECMA-262. *)
Definition is_space (c : N) : bool :=
  between 9 13 c || (c =? 32) || (c =? 160) || (c =? 5760)
  || between 8192 8202 c || (c =? 8232) || (c =? 8233) || (c =? 8239)
  || (c =? 8287) || (c =? 12288) || (c =? 65279).

(** [s.replace(/\D/g, '')]: every code unit outside [\d] is removed. *)
Definition strip_non_digits (s : jsstring) : jsstring :=
  List.filter is_digit s.

(** [s.startsWith(p)]. *)
Fixpoint startsWith (p s : jsstring) : bool :=
  match p, s with
  | [], _ => true
  | _ :: _, [] => false
  | a :: p', b :: s' => (a =? b) && startsWith p' s'
  end.

(** [/^\d{lo,hi}$/.test(s)]: without the [m] flag, [^] and [$] are the two
    ends of the input. *)
Definition test_digits (lo hi : nat) (s : jsstring) : bool :=
  forallb is_digit s && (lo <=? length s)%nat && (length s <=? hi)%nat.

(** [a === b] on strings. *)
Definition eqb (a b : jsstring) : bool := bool_decide (a = b).

(** [s.trimStart()], [s.trimEnd()] and [s.trim()]. *)
Fixpoint trimStart (s : jsstring) : jsstring :=
  match s with
  | [] => []
  | c :: s' => if is_space c then trimStart s' else s
  end.

Definition trimEnd (s : jsstring) : jsstring := rev (trimStart (rev s)).

Definition trim (s : jsstring) : jsstring := trimEnd (trimStart s).

(** [s.split(/\s+/)[0]]: the part of [s] before its first white-space code
    unit (all of [s] when it has none, [''] when [s] begins with one or is
    empty). *)
Fixpoint split_space_first (s : jsstring) : jsstring :=
  match s with
  | [] => []
  | c :: s' => if is_space c then [] else c :: split_space_first s'
  end.

(** The longest prefix of [s] whose code units are all in a class, and the
    rest of [s]: how a greedy [\w+] reads its input. *)
Fixpoint take_while (p : N -> bool) (s : jsstring) : jsstring :=
  match s with
  | [] => []
  | c :: s' => if p c then c :: take_while p s' else []
  end.

Fixpoint drop_while (p : N -> bool) (s : jsstring) : jsstring :=
  match s with
  | [] => []
  | c :: s' => if p c then drop_while p s' else s
  end.

(** [s.toLowerCase()].  The letters [A-Z] go to [a-z]; a code unit outside
    ASCII is left as it is.  (JavaScript maps those by the Unicode tables;
    since no character outside ASCII lowers to a string of the letters the
    [switch] of [enviarMensaje] compares with, both agree on every
    comparison made there.) *)
Definition lower (c : N) : N := if between 65 90 c then c + 32 else c.

Definition toLowerCase (s : jsstring) : jsstring := map lower s.

(** The text a replacement string stands for, [GetSubstitution] of
    ECMA-262 for a pattern without capture groups: [$$] is a dollar, [$&]
    the match, [$`] the text before it, [$'] the text after it; any other
    dollar is literal. *)
Fixpoint GetSubstitution (matched before after repl : jsstring) : jsstring :=
  match repl with
  | [] => []
  | c :: r =>
      if c =? 36 then
        match r with
        | d :: r' =>
            if d =? 36 then 36 :: GetSubstitution matched before after r'
            else if d =? 38 then matched ++ GetSubstitution matched before after r'
            else if d =? 96 then before ++ GetSubstitution matched before after r'
            else if d =? 39 then after ++ GetSubstitution matched before after r'
            else c :: GetSubstitution matched before after r
        | [] => [c]
        end
      else c :: GetSubstitution matched before after r
  end.

(** [s.indexOf(pat)] as a split of [s] around the first occurrence. *)
Fixpoint split_first (pat s : jsstring) {struct s} : option (jsstring * jsstring) :=
  if startsWith pat s then Some ([], drop (length pat) s)
  else
    match s with
    | [] => None
    | c :: s' =>
        match split_first pat s' with
        | Some (before, after) => Some (c :: before, after)
        | None => None
        end
    end.

(** [s.includes(pat)]: [pat] occurs somewhere in [s]. *)
Fixpoint includes (pat s : jsstring) {struct s} : bool :=
  startsWith pat s
  || match s with
     | [] => false
     | _ :: s' => includes pat s'
     end.

(** [s.replace(pat, repl)] with a string pattern and a string replacement:
    the first occurrence only. *)
Definition replace (pat repl s : jsstring) : jsstring :=
  match split_first pat s with
  | Some (before, after) =>
      before ++ GetSubstitution pat before after repl ++ after
  | None => s
  end.

(** [s.replace(/\r?\n/g, ' ')]. *)
Fixpoint replace_newlines (s : jsstring) : jsstring :=
  match s with
  | [] => []
  | c :: s' =>
      if c =? 10 then 32 :: replace_newlines s'
      else if c =? 13 then
        match s' with
        | d :: s'' => if d =? 10 then 32 :: replace_newlines s''
                      else c :: replace_newlines s'
        | [] => [c]
        end
      else c :: replace_newlines s'
  end.

(** *** [encodeURIComponent] *)

(** The characters left as they are: letters, digits and [-_.!~*'()]. *)
Definition uri_unescaped (c : N) : bool :=
  between 97 122 c || between 65 90 c || is_digit c
  || (c =? 45) || (c =? 95) || (c =? 46) || (c =? 33) || (c =? 126)
  || (c =? 42) || (c =? 39) || (c =? 40) || (c =? 41).

Definition hex_digit (d : N) : N := if d <? 10 then 48 + d else 55 + d.

(** One octet as [%XX]. *)
Definition percent (b : N) : jsstring :=
  [37; hex_digit (b / 16); hex_digit (b mod 16)].

(** The UTF-8 octets of a code point. *)
Definition utf8 (cp : N) : list N :=
  if cp <? 128 then [cp]
  else if cp <? 2048 then [192 + cp / 64; 128 + cp mod 64]
  else if cp <? 65536 then
    [224 + cp / 4096; 128 + (cp / 64) mod 64; 128 + cp mod 64]
  else
    [240 + cp / 262144; 128 + (cp / 4096) mod 64;
     128 + (cp / 64) mod 64; 128 + cp mod 64].

Definition escape (cp : N) : jsstring := concat (map percent (utf8 cp)).

Definition is_lead_surrogate (c : N) : bool := between 55296 56319 c.
Definition is_trail_surrogate (c : N) : bool := between 56320 57343 c.

(** [encodeURIComponent(s)]; [None] is the [URIError] raised on a
    surrogate that has no partner. *)
Fixpoint encodeURIComponent (s : jsstring) : option jsstring :=
  match s with
  | [] => Some []
  | c :: s' =>
      if uri_unescaped c then
        match encodeURIComponent s' with
        | Some r => Some (c :: r)
        | None => None
        end
      else if is_trail_surrogate c then None
      else if is_lead_surrogate c then
        match s' with
        | d :: s'' =>
            if is_trail_surrogate d then
              match encodeURIComponent s'' with
              | Some r =>
                  Some (escape ((c - 55296) * 1024 + (d - 56320) + 65536) ++ r)
              | None => None
              end
            else None
        | [] => None
        end
      else
        match encodeURIComponent s' with
        | Some r => Some (escape c ++ r)
        | None => None
        end
  end.

End JS.
Import JS.

(** ** Effects: the process state, exceptions and the console *)

Module Runtime.

(** What a [throw] or a rejected promise carries. *)
Inductive exn :=
| URIError                      (* raised by [encodeURIComponent] *)
| TypeError                     (* raised by the language: a property of [null] *)
| Failure (reason : string).    (* raised by a collaborator *)

(** What is sent through the channel: the second argument of
    [sock.sendMessage]. *)
Inductive Payload :=
| PText (text : jsstring) (linkPreview : bool)
| PAudio (url : jsstring) (ptt : bool)
| PImage (url : jsstring)
| PVideo (url : jsstring).

(** The lines written to the console. *)
Inductive LogLine :=
| LogLockBusy (taskName : jsstring)
| WarnNoSocket
| WarnNoPhone
| WarnUnknownType (type : option jsstring)
| ErrorEnviarMensaje (err : exn)
| WarnNoQueueFunction
| LogProcessed (processed : Z)
| ErrorProcessSequences (err : exn).

(** The state of the process the scheduler touches: the module-level
    [_taskLocks] map, the wall clock read by [Date.now()], the calls made
    to [sock.sendMessage] so far, and the console. *)
Record World := mkWorld {
  taskLocks : gmap jsstring Z;
  clock : Z;
  sent : list (jsstring * Payload);
  console : list LogLine
}.

Definition set_taskLocks (f : gmap jsstring Z -> gmap jsstring Z) (w : World) : World :=
  mkWorld (f (taskLocks w)) (clock w) (sent w) (console w).

Definition set_clock (now : Z) (w : World) : World :=
  mkWorld (taskLocks w) now (sent w) (console w).

Definition add_sent (x : jsstring * Payload) (w : World) : World :=
  mkWorld (taskLocks w) (clock w) (sent w ++ [x]) (console w).

Definition add_console (l : LogLine) (w : World) : World :=
  mkWorld (taskLocks w) (clock w) (sent w) (console w ++ [l]).

(** How a call ends. *)
Inductive outcome (A : Type) :=
| Return (a : A)
| Throw (e : exn).
Arguments Return {A} a.
Arguments Throw {A} e.

(** A computation: from the state before to its outcome and the state
    after.  An [async] function is read as the computation that runs it to
    the settling of its promise: [Return] is a fulfilled promise, [Throw] a
    rejected one. *)
Definition M (A : Type) : Type := World -> outcome A * World.

Definition ret {A} (a : A) : M A := fun w => (Return a, w).

Definition throw {A} (e : exn) : M A := fun w => (Throw e, w).

Definition bind {A B} (m : M A) (k : A -> M B) : M B :=
  fun w =>
    match m w with
    | (Return a, w') => k a w'
    | (Throw e, w') => (Throw e, w')
    end.

(** [try { m } catch (err) { h err }]. *)
Definition try_catch {A} (m : M A) (h : exn -> M A) : M A :=
  fun w =>
    match m w with
    | (Return a, w') => (Return a, w')
    | (Throw e, w') => h e w'
    end.

(** [try { return m } finally { f }]: [f] runs on both ways out, and the
    outcome of [m] stands unless [f] itself throws. *)
Definition try_finally {A} (m : M A) (f : M unit) : M A :=
  fun w =>
    let (r, w') := m w in
    match f w' with
    | (Return _, w'') => (r, w'')
    | (Throw e, w'') => (Throw e, w'')
    end.

Definition get_world : M World := fun w => (Return w, w).

Definition modify (f : World -> World) : M unit := fun w => (Return tt, f w).

(** [console.log], [console.warn], [console.error]. *)
Definition console_write (l : LogLine) : M unit := modify (add_console l).

(** [Date.now()]. *)
Definition Date_now : M Z := fun w => (Return (clock w), w).

End Runtime.
Import Runtime.

Declare Scope js_scope.
Delimit Scope js_scope with js.
Notation "x <- m ;; k" := (bind m (fun x => k))
  (at level 100, m at next level, right associativity) : js_scope.
Notation "m ;; k" := (bind m (fun _ => k))
  (at level 100, right associativity) : js_scope.
Local Open Scope js_scope.

(** ** Collaborators *)

(** [libphonenumber-js] is a dependency, not part of the repository.  Of
    [parsePhoneNumberFromString(raw, 'MX')] the code uses one thing: when
    the result is defined and [isValid()], its [number].  A parser is
    therefore a function to [Some number] in that case and to [None]
    otherwise. *)
Definition PhoneParser := jsstring -> option jsstring.

(** A parser to run the code on examples: it accepts the ten-digit
    national numbers that begin with 2 to 9 and gives them in international
    form, as the library does for a valid Mexican number, and accepts
    nothing else. *)
Definition national_parser : PhoneParser :=
  fun raw =>
    if test_digits 10 10 raw && startsWith (lit "0") raw then None
    else if test_digits 10 10 raw && startsWith (lit "1") raw then None
    else if test_digits 10 10 raw then Some (lit "+52" ++ raw)
    else None.

(** The library reads a leading [00], the international call prefix of
    Mexico, as the start of a number of another country: [0049762604] is
    for it the valid German number [+49762604].  This parser adds that one
    number to [national_parser]. *)
Definition international_parser : PhoneParser :=
  fun raw =>
    if eqb raw (lit "0049762604") then Some (lit "+49762604")
    else national_parser raw.

(** The handle [getWhatsAppSock()] gives: of it the code calls
    [sendMessage(jid, payload)], which the channel fulfils ([None]) or
    rejects with an error. *)
Record Sock := mkSock {
  deliver : jsstring -> Payload -> option exn
}.

(** [await sock.sendMessage(jid, payload)]: the call is recorded, then it
    settles. *)
Definition sendMessage (sock : Sock) (jid : jsstring) (payload : Payload) : M unit :=
  modify (add_sent (jid, payload)) ;;
  match deliver sock jid payload with
  | None => ret tt
  | Some e => throw e
  end.

(** What [queue.js] may export: [typeof Q.f === 'function'] is [Some].  A
    queue function takes [{ batchSize }] and fulfils with a count or
    rejects. *)
Record QueueModule := mkQueue {
  processDueSequenceJobs : option (Z -> M Z);
  processQueue : option (Z -> M Z)
}.

(** ** The data the dispatcher is given *)

(** A lead: what [lead[field]] gives for each property name, [None] for
    [undefined].  Attribute values are strings. *)
Abbreviation Lead := (gmap jsstring jsstring).

(** A message descriptor as the code reads it: [type] and [contenido],
    either of which may be absent. *)
Record Mensaje := mkMensaje {
  type : option jsstring;
  contenido : option jsstring
}.

(** ** Values and what an object inherits *)

(** A value as the code looks at one: through [v || ''] and then through
    [String], or through a template literal.  What is falsy ([undefined],
    [null], [false], [0], [NaN], ['']) gives [''] there; of any other value
    the code sees the string [String(v)] and nothing else. *)
Inductive value :=
| Falsy
| Truthy (text : jsstring).

(** A string as a value: [''] is falsy. *)
Definition value_of_string (s : jsstring) : value :=
  if truthy s then Truthy s else Falsy.

(** [String(v || '')]. *)
Definition text_or_empty (v : value) : jsstring :=
  match v with
  | Falsy => []
  | Truthy text => text
  end.

(** [String(f)] for a built-in function [f], as Node prints it. *)
Definition native_function (name : string) : value :=
  Truthy (lit "function " ++ lit name ++ lit "() { [native code] }").

(** The functions of [Object.prototype] other than [constructor]. *)
Definition Object_prototype_functions : list string :=
  ["__defineGetter__"; "__defineSetter__"; "hasOwnProperty";
   "__lookupGetter__"; "__lookupSetter__"; "isPrototypeOf";
   "propertyIsEnumerable"; "toString"; "valueOf"; "toLocaleString"]%string.

(** What a plain object inherits under a name: the properties of
    [Object.prototype].  [constructor] is the function [Object],
    [__proto__] the prototype itself, an object. *)
Definition Object_prototype (field : jsstring) : value :=
  if eqb field (lit "constructor") then native_function "Object"
  else if eqb field (lit "__proto__") then Truthy (lit "[object Object]")
  else
    match List.find (fun name => eqb field (lit name)) Object_prototype_functions with
    | Some name => native_function name
    | None => Falsy
    end.

(** [lead[field]] for a lead that is a plain object with string
    attributes: its own attribute of that name when it has one, and
    otherwise what it inherits. *)
Definition property (lead : Lead) (field : jsstring) : value :=
  match lead !! field with
  | Some s => value_of_string s
  | None => Object_prototype field
  end.

(** ** The gateway, [server.js] *)

Module Server.
Section WithParser.

Variable parsePhoneNumberFromString : PhoneParser.

(** [toE164(num, defaultCountry = 'MX')], lines 44-57. *)
Definition toE164 (num : option jsstring) : jsstring :=
  let raw := strip_non_digits (or_empty num) in
  if negb (truthy raw) then []
  else
    match parsePhoneNumberFromString raw with
    | Some number => number
    | None =>
        if test_digits 10 10 raw then lit "+52" ++ raw
        else if test_digits 11 15 raw && startsWith (lit "521") raw
        then lit "+" ++ raw
        else if test_digits 11 15 raw && startsWith (lit "52") raw
        then lit "+" ++ raw
        else lit "+" ++ raw
    end.

End WithParser.

(** [e164ToLeadId(e164)], lines 59-62. *)
Definition e164ToLeadId (e164 : jsstring) : jsstring :=
  let digits := strip_non_digits (or_empty (Some e164)) in
  digits ++ lit "@s.whatsapp.net".

End Server.

(** ** The scheduler, [scheduler.js] *)

Module Scheduler.

(** *** Task lock, lines 247-264 *)

(** [existing && now - existing < timeoutMinutes * 60 * 1000], where
    [existing] is a time stamp or [undefined]; the time stamp [0] is
    falsy. *)
Definition lock_is_fresh (existing : option Z) (now timeoutMinutes : Z) : bool :=
  match existing with
  | Some t => negb (t =? 0)%Z && (now - t <? timeoutMinutes * 60 * 1000)%Z
  | None => false
  end.

(** [withTaskLock(taskName, timeoutMinutes = 5, fn)].  The value a lock
    guards is a count, as in the one use the repository makes of it. *)
Definition withTaskLock (taskName : jsstring) (timeoutMinutes : Z) (fn : M Z) : M Z :=
  now <- Date_now ;;
  w <- get_world ;;
  let existing := taskLocks w !! taskName in
  if lock_is_fresh existing now timeoutMinutes then
    console_write (LogLockBusy taskName) ;;
    ret 0%Z
  else
    modify (set_taskLocks (insert taskName now)) ;;
    try_finally fn (modify (set_taskLocks (delete taskName))).

(** *** Phones and placeholders, lines 268-307 *)

Section WithParser.

Variable parsePhoneNumberFromString : PhoneParser.

(** [toE164(num, defaultCountry = 'MX')], lines 268-280. *)
Definition toE164 (num : option jsstring) : jsstring :=
  let raw := strip_non_digits (or_empty num) in
  if negb (truthy raw) then []
  else
    match parsePhoneNumberFromString raw with
    | Some number => number
    | None =>
        if test_digits 10 10 raw then lit "+52" ++ raw
        else if test_digits 11 15 raw && startsWith (lit "521") raw
        then lit "+" ++ raw
        else if test_digits 11 15 raw && startsWith (lit "52") raw
        then lit "+" ++ raw
        else lit "+" ++ raw
    end.

End WithParser.

(** [normalizePhoneForWA(phone)], lines 282-289. *)
Definition normalizePhoneForWA (phone : jsstring) : jsstring :=
  let num := strip_non_digits (or_empty (Some phone)) in
  if (length num =? 12)%nat && startsWith (lit "52") num
     && negb (startsWith (lit "521") num)
  then lit "521" ++ drop 2 num
  else if (length num =? 10)%nat then lit "521" ++ num
  else num.

(** [e164ToJid(e164)], lines 291-294. *)
Definition e164ToJid (e164 : jsstring) : jsstring :=
  let digits := strip_non_digits (or_empty (Some e164)) in
  normalizePhoneForWA digits ++ lit "@s.whatsapp.net".

(** [firstName(n = '')], lines 296-298. *)
Definition firstName (n : jsstring) : jsstring :=
  split_space_first (trim n).

(** The regular expression [/\{\{(\w+)\}\}/] tried at the head of [s]: the
    capture and what follows the match.  [\w+] is greedy; giving back a
    word character never helps, since [\}] cannot match one, so the
    capture is the whole run of word characters after the braces. *)
Definition exec_placeholder (s : jsstring) : option (jsstring * jsstring) :=
  match s with
  | c1 :: c2 :: t =>
      if (c1 =? 123) && (c2 =? 123) then
        let field := take_while is_word t in
        match field, drop_while is_word t with
        | _ :: _, d1 :: d2 :: rest =>
            if (d1 =? 125) && (d2 =? 125) then Some (field, rest) else None
        | _, _ => None
        end
      else None
  | _ => None
  end.

(** [str.replace(/\{\{(\w+)\}\}/g, callback)]: matches are looked for from
    left to right, each search starting where the last match ended; the
    text between matches is kept.  [fuel] bounds the number of steps. *)
Fixpoint replace_placeholders (fuel : nat) (callback : jsstring -> jsstring)
    (s : jsstring) : jsstring :=
  match fuel with
  | O => s
  | S fuel' =>
      match exec_placeholder s with
      | Some (field, rest) =>
          callback field ++ replace_placeholders fuel' callback rest
      | None =>
          match s with
          | [] => []
          | c :: s' => c :: replace_placeholders fuel' callback s'
          end
      end
  end.

(** The callback of [replacePlaceholders], lines 302-306.  [leadData] is
    any value whatever: what the callback does with it is read
    [leadData?.[field]], so it is given as that read, from a property name
    to the value found ([Falsy] where the read gives [undefined], as it
    does for every name when [leadData] is [null]).  What the callback
    returns is put into the text by [String]. *)
Definition placeholder_value (leadData : jsstring -> value) (field : jsstring)
  : jsstring :=
  let value := text_or_empty (leadData field) in
  if eqb field (lit "nombre") then firstName value else value.

(** [replacePlaceholders(template, leadData)], lines 300-307, for any
    [leadData].  Every step of the replacement consumes a code unit, so
    the length of the template is fuel enough. *)
Definition replacePlaceholders_any (template : jsstring)
    (leadData : jsstring -> value) : jsstring :=
  let str := or_empty (Some template) in
  replace_placeholders (length str) (placeholder_value leadData) str.

(** [replacePlaceholders(template, leadData)] on a lead: its properties
    are read through the prototype chain. *)
Definition replacePlaceholders (template : jsstring) (leadData : Lead) : jsstring :=
  replacePlaceholders_any template (property leadData).

(** *** [enviarMensaje], lines 313-383 *)

(** [lead.telefono || lead.phone || lead.whatsapp], line 321. *)
Definition lead_phone (lead : Lead) : option jsstring :=
  js_or (js_or (lead !! lit "telefono") (lead !! lit "phone"))
        (lead !! lit "whatsapp").

(** [(mensaje?.type || 'texto').toLowerCase()], line 328. *)
Definition mensaje_tipo (mensaje : option Mensaje) : jsstring :=
  toLowerCase (or_empty (js_or (mensaje ≫= type) (Some (lit "texto")))).

(** [mensaje?.contenido || ''], line 329. *)
Definition mensaje_contenido (mensaje : option Mensaje) : jsstring :=
  or_empty (mensaje ≫= contenido).

(** The text of the [formulario] case, lines 341-346; [None] when
    [encodeURIComponent] throws. *)
Definition formulario_text (e164 : jsstring) (lead : Lead) (contenido : jsstring)
  : option jsstring :=
  let raw := or_empty (Some contenido) in
  let with_phone := replace (lit "{{telefono}}") (strip_non_digits e164) raw in
  match encodeURIComponent (or_empty (lead !! lit "nombre")) with
  | None => None
  | Some nombre =>
      Some (trim (replace_newlines (replace (lit "{{nombre}}") nombre with_phone)))
  end.

(** The [switch (tipo)] statement, lines 331-379. *)
Definition dispatch (sock : Sock) (e164 : jsstring) (lead : Lead)
    (mensaje : option Mensaje) : M unit :=
  let jid := e164ToJid e164 in
  let tipo := mensaje_tipo mensaje in
  let contenido := mensaje_contenido mensaje in
  if eqb tipo (lit "texto") then
    let text := trim (replacePlaceholders contenido lead) in
    if truthy text then sendMessage sock jid (PText text false)
    else ret tt
  else if eqb tipo (lit "formulario") then
    match formulario_text e164 lead contenido with
    | None => throw URIError
    | Some text =>
        if truthy text then sendMessage sock jid (PText text false)
        else ret tt
    end
  else if eqb tipo (lit "audio") then
    let audioUrl := trim (replacePlaceholders contenido lead) in
    if truthy audioUrl then sendMessage sock jid (PAudio audioUrl true)
    else ret tt
  else if eqb tipo (lit "imagen") then
    let url := trim (replacePlaceholders contenido lead) in
    if truthy url then sendMessage sock jid (PImage url)
    else ret tt
  else if eqb tipo (lit "video") then
    let url := trim (replacePlaceholders contenido lead) in
    if truthy url then sendMessage sock jid (PVideo url)
    else ret tt
  else console_write (WarnUnknownType (mensaje ≫= type)).

Section Dispatcher.

Variable parsePhoneNumberFromString : PhoneParser.

(** [getWhatsAppSock()] of [whatsappService.js]: the handle, or [null]. *)
Variable getWhatsAppSock : option Sock.

(** The [try] block, lines 315-379. *)
Definition enviarMensaje_try (lead : Lead) (mensaje : option Mensaje) : M unit :=
  match getWhatsAppSock with
  | None => console_write WarnNoSocket
  | Some sock =>
      let e164 := toE164 parsePhoneNumberFromString (lead_phone lead) in
      if negb (truthy e164) then console_write WarnNoPhone
      else dispatch sock e164 lead mensaje
  end.

(** [enviarMensaje(lead, mensaje)]: the [try] block under its [catch],
    lines 380-382. *)
Definition enviarMensaje (lead : Lead) (mensaje : option Mensaje) : M unit :=
  try_catch (enviarMensaje_try lead mensaje)
            (fun err => console_write (ErrorEnviarMensaje err)).

End Dispatcher.

(** *** [processSequences], lines 388-413 *)

(** The argument of [processSequences]: nothing ([undefined], for which
    the default [{}] stands), [null], or an object whose [batchSize] may be
    absent. *)
Inductive OptionsArg :=
| NoOptions
| NullOptions
| WithOptions (batchSize : option Z).

Section Sequences.

(** The exports of [queue.js]. *)
Variable Q : QueueModule.

(** The function the callback of [processSequences] picks, lines 392-397. *)
Definition queue_function : option (Z -> M Z) :=
  match processDueSequenceJobs Q with
  | Some f => Some f
  | None =>
      match processQueue Q with
      | Some f => Some f
      | None => None
      end
  end.

(** The callback given to [withTaskLock], lines 391-412. *)
Definition processSequences_callback (batchSize : Z) : M Z :=
  match queue_function with
  | None =>
      console_write WarnNoQueueFunction ;;
      ret 0%Z
  | Some fn =>
      try_catch
        (processed <- fn batchSize ;;
         console_write (LogProcessed processed) ;;
         ret processed)
        (fun err =>
           console_write (ErrorProcessSequences err) ;;
           ret 0%Z)
  end.

(** [const { batchSize = 200 } = options], line 389: [None] is the
    [TypeError] of destructuring [null]. *)
Definition destructure_batchSize (options : OptionsArg) : option Z :=
  match options with
  | NullOptions => None
  | NoOptions => Some 200%Z
  | WithOptions batchSize => Some (default 200%Z batchSize)
  end.

(** [processSequences(options = {})], lines 388-413. *)
Definition processSequences (options : OptionsArg) : M Z :=
  let options :=
    match options with
    | NoOptions => WithOptions None
    | _ => options
    end in
  match destructure_batchSize options with
  | None => throw TypeError
  | Some batchSize =>
      withTaskLock (lit "processSequences") 5 (processSequences_callback batchSize)
  end.

End Sequences.

End Scheduler.

(** ** The routes of the gateway, [server.js] lines 86-122 and 195-213 *)

Module Gateway.

(** What a route writes to a lead document with [set(..., { merge: true })]. *)
Inductive LeadPatch :=
| TouchLastMessage   (* [{ lastMessageAt: new Date(), unreadCount: increment(0) }] *)
| ResetUnread.       (* [{ unreadCount: 0 }] *)

(** The calls a route makes on its collaborators, in the order it makes
    them. *)
Inductive Call :=
| LeadGet (leadId : jsstring)
| SendMessageToLead (phone message : jsstring)
| LeadSetMerge (leadId : jsstring) (patch : LeadPatch).

(** The JSON a route answers with. *)
Inductive Body :=
| MissingLeadIdOrMessage          (* [{ error: 'Faltan leadId o message' }] *)
| LeadNotFound                    (* [{ error: 'Lead no encontrado' }] *)
| LeadWithoutPhone                (* [{ error: 'Lead sin telefono registrado' }] *)
| MissingLeadId                   (* [{ error: 'Falta leadId' }] *)
| ErrorOf (err : exn)             (* [{ error: error.message || String(error) }] *)
| OkResult (result : jsstring)    (* [{ ok: true, result }] *)
| Success.                        (* [{ success: true }] *)

(** A response: the status code and the body. *)
Definition Response : Type := Z * Body.

(** The collaborators of the routes.  [lead_get id] is
    [db.collection('leads').doc(id).get()]: it rejects, or gives a snapshot,
    [None] when the document does not exist and its data otherwise.
    [sendMessageToLead] of [whatsappService.js] fulfils with a result the
    route passes on as it is, or rejects.  [lead_set id patch] is
    [doc(id).set(patch, { merge: true })], which may reject. *)
Record Services := mkServices {
  lead_get : jsstring -> outcome (option Lead);
  sendMessageToLead : jsstring -> jsstring -> outcome jsstring;
  lead_set : jsstring -> LeadPatch -> option exn
}.

Section Routes.

Variable parsePhoneNumberFromString : PhoneParser.
Variable services : Services.

(** [POST /api/whatsapp/send-message], lines 87-122.  [leadId] and
    [message] are the two fields read from the body, strings either of
    which may be absent.  The result is the response and the calls made. *)
Definition send_message (leadId message : option jsstring) : Response * list Call :=
  if negb (truthy (or_empty leadId)) || negb (truthy (or_empty message))
  then ((400%Z, MissingLeadIdOrMessage), [])
  else
    let id := or_empty leadId in
    let text := or_empty message in
    match lead_get services id with
    | Throw err => ((500%Z, ErrorOf err), [LeadGet id])
    | Return None => ((404%Z, LeadNotFound), [LeadGet id])
    | Return (Some data) =>
        let rawPhone :=
          js_or (js_or (data !! lit "telefono") (data !! lit "phone"))
                (data !! lit "whatsapp") in
        if negb (truthy (or_empty rawPhone))
        then ((400%Z, LeadWithoutPhone), [LeadGet id])
        else
          let phone := Server.toE164 parsePhoneNumberFromString rawPhone in
          match sendMessageToLead services phone text with
          | Throw err =>
              ((500%Z, ErrorOf err), [LeadGet id; SendMessageToLead phone text])
          | Return result =>
              match lead_set services id TouchLastMessage with
              | Some err =>
                  ((500%Z, ErrorOf err),
                   [LeadGet id; SendMessageToLead phone text;
                    LeadSetMerge id TouchLastMessage])
              | None =>
                  ((200%Z, OkResult result),
                   [LeadGet id; SendMessageToLead phone text;
                    LeadSetMerge id TouchLastMessage])
              end
          end
    end.

(** [POST /api/whatsapp/mark-read], lines 196-213. *)
Definition mark_read (leadId : option jsstring) : Response * list Call :=
  if negb (truthy (or_empty leadId)) then ((400%Z, MissingLeadId), [])
  else
    let id := or_empty leadId in
    match lead_set services id ResetUnread with
    | Some err => ((500%Z, ErrorOf err), [LeadSetMerge id ResetUnread])
    | None => ((200%Z, Success), [LeadSetMerge id ResetUnread])
    end.

End Routes.

End Gateway.

(** ** Words of the specification *)

Module Spec.

(** [tok] is the first white-space-delimited token of [s]: it has no
    white space in it, [s] begins with it, and what follows it in [s] is
    nothing or begins with white space. *)
Definition is_first_token (tok s : jsstring) : Prop :=
  forallb (λ c, negb (is_space c)) tok = true
  ∧ ∃ rest, s = tok ++ rest
      ∧ (rest = [] ∨ ∃ c r, rest = c :: r ∧ is_space c = true).


(** Two strings are equal when the case of the letters [A-Z] is ignored:
    they have the same length and agree position by position, up to an
    upper-case letter standing for its lower-case one. *)
Definition equal_ignoring_case (a b : jsstring) : Prop :=
  Forall2 (λ x y, x = y
                  ∨ (between 65 90 x = true ∧ y = x + 32)
                  ∨ (between 65 90 y = true ∧ x = y + 32)) a b.

(** The type a descriptor declares, [texto] when it declares none. *)
Definition declared_type (mensaje : option Mensaje) : jsstring :=
  match mensaje ≫= type with
  | Some (c :: t) => c :: t
  | _ => lit "texto"
  end.

(** The five types the dispatcher knows. *)
Definition known_types : list jsstring :=
  [lit "texto"; lit "formulario"; lit "audio"; lit "imagen"; lit "video"].

(** What a call of the dispatcher hands to the channel for a piece of
    content: one message when the content is not empty, none otherwise. *)
Definition outbound (jid : jsstring) (payload : jsstring → Payload)
    (content : jsstring) : list (jsstring * Payload) :=
  if truthy content then [(jid, payload content)] else [].

(** The content a known type leads to: the text of the form for
    [formulario], the rendered and trimmed template for the others; [None]
    when building it throws. *)
Definition content_to_send (e164 : jsstring) (lead : Lead)
    (mensaje : option Mensaje) : option jsstring :=
  if eqb (Scheduler.mensaje_tipo mensaje) (lit "formulario")
  then Scheduler.formulario_text e164 lead (Scheduler.mensaje_contenido mensaje)
  else Some (trim (Scheduler.replacePlaceholders
                     (Scheduler.mensaje_contenido mensaje) lead)).

(** The text or the media reference a payload carries. *)
Definition payload_content (p : Payload) : jsstring :=
  match p with
  | PText text _ => text
  | PAudio url _ => url
  | PImage url => url
  | PVideo url => url
  end.

End Spec.

(** * Properties *)

(** ** Strings *)

Section StringFacts.

Implicit Types s p r : jsstring.

Lemma or_empty_Some s : or_empty (Some s) = s.
Proof. by destruct s. Qed.

Lemma or_empty_None : or_empty None = [].
Proof. done. Qed.

Lemma truthy_true s : truthy s = true ↔ s ≠ [].
Proof. destruct s; simpl; split; congruence. Qed.

Lemma truthy_false s : truthy s = false ↔ s = [].
Proof. destruct s; simpl; split; congruence. Qed.

Lemma strip_digits_id s : forallb is_digit s = true → strip_non_digits s = s.
Proof.
  unfold strip_non_digits. induction s as [|c s IH]; simpl; [done|].
  intros [Hc Hs]%andb_prop. rewrite Hc, IH; done.
Qed.

Lemma strip_all_digits s : forallb is_digit (strip_non_digits s) = true.
Proof.
  unfold strip_non_digits. induction s as [|c s IH]; simpl; [done|].
  destruct (is_digit c) eqn:Hc; simpl; [by rewrite Hc|done].
Qed.

Lemma strip_idempotent s : strip_non_digits (strip_non_digits s) = strip_non_digits s.
Proof. apply strip_digits_id, strip_all_digits. Qed.

Lemma startsWith_app p r : startsWith p (p ++ r) = true.
Proof. induction p as [|a p IH]; simpl; [done|]. by rewrite N.eqb_refl. Qed.

Lemma startsWith_inv p s : startsWith p s = true → s = p ++ drop (length p) s.
Proof.
  revert s. induction p as [|a p IH]; intros [|b s]; simpl; try done.
  intros [Hab Hp]%andb_prop. apply N.eqb_eq in Hab as ->.
  f_equal. by apply IH.
Qed.

Lemma startsWith_length p s : startsWith p s = true → (length p ≤ length s)%nat.
Proof.
  intros H%startsWith_inv. rewrite H, length_app. lia.
Qed.

Lemma forallb_drop (f : N → bool) n s : forallb f s = true → forallb f (drop n s) = true.
Proof.
  revert n; induction s as [|c s IH]; intros [|n]; simpl; try done.
  intros [_ Hs]%andb_prop. by apply IH.
Qed.

(** The built-ins on a few inputs. *)

Example lit_plus52 : lit "+52" = [43; 53; 50].
Proof. reflexivity. Qed.

Example trim_spaces : trim (lit "  a b  ") = lit "a b".
Proof. reflexivity. Qed.

Example toLowerCase_mixed : toLowerCase (lit "ImaGen_1") = lit "imagen_1".
Proof. reflexivity. Qed.

Example replace_first_only :
  replace (lit "{{x}}") (lit "7") (lit "1{{x}}2{{x}}") = lit "172{{x}}".
Proof. reflexivity. Qed.

Example replace_dollar_patterns :
  replace (lit "{{x}}") (lit "a$&b$$") (lit "1{{x}}2{{x}}") = lit "1a{{x}}b$2{{x}}".
Proof. reflexivity. Qed.

Example replace_newlines_crlf :
  replace_newlines [97; 13; 10; 98; 10; 13; 99] = [97; 32; 98; 32; 13; 99].
Proof. reflexivity. Qed.

Example encodeURIComponent_ascii :
  encodeURIComponent (lit "Juan Perez {$}") = Some (lit "Juan%20Perez%20%7B%24%7D").
Proof. reflexivity. Qed.

Example encodeURIComponent_utf8 :
  encodeURIComponent [241; 55357; 56832] = Some (lit "%C3%B1%F0%9F%98%80").
Proof. reflexivity. Qed.

Example encodeURIComponent_lone_surrogate : encodeURIComponent [55296] = None.
Proof. reflexivity. Qed.

End StringFacts.

(** ** Phone helpers *)

Section PhoneFacts.

Import Scheduler.

Implicit Types s d phone : jsstring.

(** A string of digits that is neither ten digits long nor an unmarked
    twelve-digit number is left as it is. *)
Lemma normalizePhoneForWA_digits_13 d :
  forallb is_digit d = true → length d = 13%nat → normalizePhoneForWA d = d.
Proof.
  intros Hd Hl. unfold normalizePhoneForWA.
  rewrite or_empty_Some, (strip_digits_id _ Hd), Hl. done.
Qed.

Lemma normalizePhoneForWA_all_digits phone :
  forallb is_digit (normalizePhoneForWA phone) = true.
Proof.
  unfold normalizePhoneForWA. rewrite or_empty_Some.
  pose proof (strip_all_digits phone) as Hd.
  repeat case_match; simpl; auto using forallb_drop.
Qed.

(** [normalizePhoneForWA] is idempotent on every input. *)
Lemma normalizePhoneForWA_idempotent phone :
  normalizePhoneForWA (normalizePhoneForWA phone) = normalizePhoneForWA phone.
Proof.
  pose proof (normalizePhoneForWA_all_digits phone) as Hall.
  set (num := strip_non_digits phone).
  assert (normalizePhoneForWA phone =
          if (length num =? 12)%nat && startsWith (lit "52") num
             && negb (startsWith (lit "521") num)
          then lit "521" ++ drop 2 num
          else if (length num =? 10)%nat then lit "521" ++ num else num) as Hn.
  { unfold normalizePhoneForWA. by rewrite or_empty_Some. }
  rewrite Hn in *.
  destruct ((length num =? 12)%nat && startsWith (lit "52") num
            && negb (startsWith (lit "521") num)) eqn:H12.
  - apply normalizePhoneForWA_digits_13; [done|].
    apply andb_prop in H12 as [[Hl%Nat.eqb_eq _]%andb_prop _].
    rewrite length_app, length_drop, Hl. done.
  - destruct (length num =? 10)%nat eqn:H10.
    + apply normalizePhoneForWA_digits_13; [done|].
      apply Nat.eqb_eq in H10. rewrite length_app, H10. done.
    + unfold normalizePhoneForWA.
      rewrite or_empty_Some, (strip_digits_id _ Hall).
      by rewrite H12, H10.
Qed.

(** C5.  [normalizePhoneForWA] removes what is not a digit and then: twelve
    digits that begin with the country code 52 but not with 521 get the
    mobile digit 1 after the country code, which makes thirteen digits;
    ten digits get 521 in front, which makes thirteen digits; any other
    digit string is returned as it is. *)
Theorem normalizePhoneForWA_cases phone :
  let num := strip_non_digits phone in
  (length num = 12%nat → startsWith (lit "52") num = true →
   startsWith (lit "521") num = false →
     normalizePhoneForWA phone = lit "52" ++ lit "1" ++ drop 2 num
     ∧ num = lit "52" ++ drop 2 num
     ∧ length (normalizePhoneForWA phone) = 13%nat)
  ∧ (length num = 10%nat →
     normalizePhoneForWA phone = lit "521" ++ num
     ∧ length (normalizePhoneForWA phone) = 13%nat)
  ∧ (length num ≠ 10%nat →
     (length num ≠ 12%nat ∨ startsWith (lit "52") num = false
      ∨ startsWith (lit "521") num = true) →
     normalizePhoneForWA phone = num).
Proof.
  intros num. unfold normalizePhoneForWA. rewrite or_empty_Some. fold num.
  split; [|split].
  - intros Hl H52 H521. rewrite Hl, H52, H521. simpl.
    split; [done|]. split.
    + by apply startsWith_inv in H52.
    + rewrite length_drop, Hl. done.
  - intros Hl. rewrite Hl. simpl. split; [done|]. by rewrite Hl.
  - intros H10 Hother.
    apply Nat.eqb_neq in H10. rewrite H10.
    destruct Hother as [H12|[H52|H521]].
    + apply Nat.eqb_neq in H12. by rewrite H12.
    + rewrite H52. by rewrite andb_false_r.
    + rewrite H521. simpl. by rewrite andb_false_r.
Qed.

Lemma normalizePhoneForWA_cases_witness :
  normalizePhoneForWA (lit "+52 (55) 1234-5678") = lit "5215512345678"
  ∧ normalizePhoneForWA (lit "55 1234 5678") = lit "5215512345678"
  ∧ normalizePhoneForWA (lit "+1 415 555 2671") = lit "14155552671".
Proof.
  split; [|split].
  - apply (proj1 (normalizePhoneForWA_cases (lit "+52 (55) 1234-5678"))); reflexivity.
  - apply (proj1 (proj2 (normalizePhoneForWA_cases (lit "55 1234 5678")))); reflexivity.
  - apply (proj2 (proj2 (normalizePhoneForWA_cases (lit "+1 415 555 2671")))).
    + vm_compute. lia.
    + left. vm_compute. lia.
Defined.

(** C9.  On a string of thirteen digits that begins with 521,
    [normalizePhoneForWA] applied twice gives what it gives applied once,
    and that is the thirteen digits themselves. *)
Theorem normalizePhoneForWA_idempotent_mobile s :
  length s = 13%nat → forallb is_digit s = true →
  startsWith (lit "521") s = true →
  normalizePhoneForWA (normalizePhoneForWA s) = normalizePhoneForWA s
  ∧ normalizePhoneForWA s = s
  ∧ length (normalizePhoneForWA s) = 13%nat.
Proof.
  intros Hl Hd _. rewrite normalizePhoneForWA_idempotent.
  rewrite (normalizePhoneForWA_digits_13 s Hd Hl). done.
Qed.

Lemma normalizePhoneForWA_idempotent_mobile_witness :
  normalizePhoneForWA (normalizePhoneForWA (lit "5215512345678"))
  = normalizePhoneForWA (lit "5215512345678")
  ∧ normalizePhoneForWA (lit "5215512345678") = lit "5215512345678"
  ∧ length (normalizePhoneForWA (lit "5215512345678")) = 13%nat.
Proof.
  apply (normalizePhoneForWA_idempotent_mobile (lit "5215512345678")); reflexivity.
Defined.

(** C6, as the code has it.  On ten digits [d] both copies of [toE164]
    first ask the strict parser: the number it gives for [d], when it
    accepts [d], is the result, whatever that number is; only when it
    rejects [d] is the result [+52] followed by [d]. *)
Theorem toE164_ten_digits_by_parser (parse : PhoneParser) d :
  length d = 10%nat → forallb is_digit d = true →
  (∀ number, parse d = Some number →
     Scheduler.toE164 parse (Some d) = number
     ∧ Server.toE164 parse (Some d) = number)
  ∧ (parse d = None →
     Scheduler.toE164 parse (Some d) = lit "+52" ++ d
     ∧ Server.toE164 parse (Some d) = lit "+52" ++ d).
Proof.
  intros Hl Hd.
  unfold Scheduler.toE164, Server.toE164.
  rewrite or_empty_Some, (strip_digits_id _ Hd).
  destruct d as [|c d]; [done|]. simpl truthy. simpl negb. cbv iota.
  split.
  - by intros number ->.
  - intros ->. unfold test_digits. rewrite Hd, Hl. done.
Qed.

Lemma toE164_ten_digits_by_parser_witness :
  Scheduler.toE164 international_parser (Some (lit "5512345678")) = lit "+525512345678"
  ∧ Server.toE164 international_parser (Some (lit "0155123456")) = lit "+520155123456".
Proof.
  split.
  - apply (proj1 (toE164_ten_digits_by_parser international_parser
                    (lit "5512345678") eq_refl eq_refl)).
    reflexivity.
  - apply (proj2 (toE164_ten_digits_by_parser international_parser
                    (lit "0155123456") eq_refl eq_refl)).
    reflexivity.
Defined.

(** C6 as the specification words it fails: [0049762604] is ten digits,
    the parser accepts it as a number of another country, and [toE164]
    returns that number, not [+52] and the ten digits. *)
Lemma toE164_ten_digits_international :
  length (lit "0049762604") = 10%nat
  ∧ forallb is_digit (lit "0049762604") = true
  ∧ Scheduler.toE164 international_parser (Some (lit "0049762604")) = lit "+49762604"
  ∧ Server.toE164 international_parser (Some (lit "0049762604")) = lit "+49762604"
  ∧ lit "+49762604" ≠ lit "+52" ++ lit "0049762604".
Proof. by vm_compute. Qed.

(** Without a parser the fallback alone decides. *)
Lemma toE164_ten_digits_fallback d :
  length d = 10%nat → forallb is_digit d = true →
  Scheduler.toE164 (λ _, None) (Some d) = lit "+52" ++ d.
Proof.
  intros Hl Hd. unfold Scheduler.toE164.
  rewrite or_empty_Some, (strip_digits_id _ Hd).
  destruct d as [|c d]; [done|]. simpl truthy. simpl negb. cbv iota.
  unfold test_digits. rewrite Hd, Hl. done.
Qed.

End PhoneFacts.

(** ** The template renderer *)

Section RenderFacts.

Import Scheduler.

Implicit Types s rest field : jsstring.
Implicit Types lead : Lead.

Lemma drop_while_length (p : N → bool) s : (length (drop_while p s) ≤ length s)%nat.
Proof.
  induction s as [|c s IH]; simpl; [lia|].
  destruct (p c); simpl; lia.
Qed.



(** A match of the placeholder expression consumes at least one code
    unit. *)
Lemma exec_placeholder_shorter s field rest :
  exec_placeholder s = Some (field, rest) → (length rest < length s)%nat.
Proof.
  destruct s as [|c1 [|c2 t]]; simpl; try done.
  destruct ((c1 =? 123) && (c2 =? 123)); [|done].
  pose proof (drop_while_length is_word t) as Hlen.
  destruct (take_while is_word t); [done|].
  destruct (drop_while is_word t) as [|d1 [|d2 r]]; try done.
  destruct ((d1 =? 125) && (d2 =? 125)); [|done].
  intros [= _ <-]. simpl in Hlen. lia.
Qed.




Lemma exec_placeholder_other c s : c ≠ 123 → exec_placeholder (c :: s) = None.
Proof.
  intros Hc. destruct s as [|c2 t]; simpl; [done|].
  apply N.eqb_neq in Hc. by rewrite Hc.
Qed.

(** Fuel beyond the length of the text changes nothing. *)
Lemma replace_placeholders_fuel n m callback s :
  (length s ≤ n)%nat → (length s ≤ m)%nat →
  replace_placeholders n callback s = replace_placeholders m callback s.
Proof.
  revert m s. induction n as [|n IH]; intros m s Hn Hm.
  - destruct s; [|simpl in Hn; lia]. by destruct m.
  - destruct m as [|m].
    + destruct s; [|simpl in Hm; lia]. done.
    + simpl. destruct (exec_placeholder s) as [[field rest]|] eqn:He.
      * apply exec_placeholder_shorter in He. f_equal. apply IH; lia.
      * destruct s as [|c s]; [done|]. simpl in *. f_equal. apply IH; lia.
Qed.

Lemma replacePlaceholders_any_match s field rest (read : jsstring → value) :
  exec_placeholder s = Some (field, rest) →
  replacePlaceholders_any s read
  = placeholder_value read field ++ replacePlaceholders_any rest read.
Proof.
  intros He. unfold replacePlaceholders_any. rewrite !or_empty_Some.
  pose proof (exec_placeholder_shorter _ _ _ He) as Hlt.
  destruct s as [|c s]; [done|].
  cbn [length replace_placeholders]. rewrite He. f_equal.
  apply replace_placeholders_fuel; simpl in *; lia.
Qed.

Lemma replacePlaceholders_any_literal c s (read : jsstring → value) :
  exec_placeholder (c :: s) = None →
  replacePlaceholders_any (c :: s) read = c :: replacePlaceholders_any s read.
Proof.
  intros He. unfold replacePlaceholders_any. rewrite !or_empty_Some.
  cbn [length replace_placeholders]. by rewrite He.
Qed.

Lemma replacePlaceholders_nil lead : replacePlaceholders [] lead = [].
Proof. done. Qed.

Lemma replacePlaceholders_match s field rest lead :
  exec_placeholder s = Some (field, rest) →
  replacePlaceholders s lead
  = placeholder_value (property lead) field ++ replacePlaceholders rest lead.
Proof. apply replacePlaceholders_any_match. Qed.

Lemma replacePlaceholders_literal c s lead :
  exec_placeholder (c :: s) = None →
  replacePlaceholders (c :: s) lead = c :: replacePlaceholders s lead.
Proof. apply replacePlaceholders_any_literal. Qed.

(** Text without an opening brace is left as it is. *)
Lemma replacePlaceholders_plain s lead :
  Forall (λ c, c ≠ 123) s → replacePlaceholders s lead = s.
Proof.
  induction 1 as [|c s Hc _ IH]; [done|].
  rewrite replacePlaceholders_literal by by apply exec_placeholder_other.
  by rewrite IH.
Qed.

Lemma split_space_first_token s : Spec.is_first_token (split_space_first s) s.
Proof.
  induction s as [|c s (Hns & rest & Hs & Hrest)]; simpl.
  - split; [done|]. exists []. auto.
  - destruct (is_space c) eqn:Hc.
    + split; [done|]. exists (c :: s). split; [done|]. right. eauto.
    + split; [simpl; by rewrite Hc|].
      exists rest. split; [|done]. simpl. by rewrite <- Hs.
Qed.







(** The names [enviarMensaje] reads on a lead by themselves are not names
    of [Object.prototype]: reading them finds the lead's own attribute or
    nothing. *)
Lemma property_own_names lead field :
  field ∈ [lit "telefono"; lit "phone"; lit "whatsapp"; lit "nombre"] →
  text_or_empty (property lead field) = or_empty (lead !! field).
Proof.
  rewrite !elem_of_cons, elem_of_nil. unfold property.
  intros [->|[->|[->|[->|[]]]]];
    (destruct (lead !! _) as [[|c a]|]; reflexivity).
Qed.




End RenderFacts.

(** ** The task lock and the sequence processor *)

Section LockFacts.

Import Scheduler.

Implicit Types taskName : jsstring.
Implicit Types w : World.
Implicit Types fn : M Z.

(** The two ways through [withTaskLock]. *)
Lemma withTaskLock_unfold taskName timeoutMinutes fn w :
  withTaskLock taskName timeoutMinutes fn w
  = if lock_is_fresh (taskLocks w !! taskName) (clock w) timeoutMinutes
    then (Return 0%Z, add_console (LogLockBusy taskName) w)
    else let (r, w1) := fn (set_taskLocks (insert taskName (clock w)) w) in
         (r, set_taskLocks (delete taskName) w1).
Proof.
  unfold withTaskLock, bind, Date_now, get_world. simpl.
  destruct (lock_is_fresh _ _ _); [done|].
  unfold try_finally, modify. simpl. by destruct (fn _).
Qed.

Lemma lock_is_fresh_true t now timeoutMinutes :
  t ≠ 0%Z → (now - t < timeoutMinutes * 60 * 1000)%Z →
  lock_is_fresh (Some t) now timeoutMinutes = true.
Proof.
  intros Ht Hage. unfold lock_is_fresh.
  apply Z.eqb_neq in Ht. apply Z.ltb_lt in Hage. by rewrite Ht, Hage.
Qed.

Lemma withTaskLock_busy taskName timeoutMinutes fn w t :
  taskLocks w !! taskName = Some t → t ≠ 0%Z →
  (clock w - t < timeoutMinutes * 60 * 1000)%Z →
  withTaskLock taskName timeoutMinutes fn w
  = (Return 0%Z, add_console (LogLockBusy taskName) w).
Proof.
  intros Hl Ht Hage. rewrite withTaskLock_unfold, Hl.
  by rewrite lock_is_fresh_true.
Qed.

Lemma withTaskLock_free taskName timeoutMinutes fn w :
  taskLocks w !! taskName = None →
  withTaskLock taskName timeoutMinutes fn w
  = let (r, w1) := fn (set_taskLocks (insert taskName (clock w)) w) in
    (r, set_taskLocks (delete taskName) w1).
Proof. intros Hl. by rewrite withTaskLock_unfold, Hl. Qed.

(** C3.  A call of [withTaskLock] that finds an entry for the task younger
    than [timeoutMinutes] minutes returns 0 and does not run the action:
    what it returns and the state it leaves do not depend on the action.
    That is the case of a second call made while the first is running its
    action.  A call that runs the action ends as the action ends, by a
    value or by an exception, and in both cases the entry is gone, so the
    next call, whenever it comes, runs its action again.  (An entry is the
    time stamp [Date.now()] gave when it was made, which is not 0.) *)
Theorem withTaskLock_spec taskName timeoutMinutes :
  (∀ fn w t,
     taskLocks w !! taskName = Some t → t ≠ 0%Z →
     (clock w - t < timeoutMinutes * 60 * 1000)%Z →
     withTaskLock taskName timeoutMinutes fn w
     = (Return 0%Z, add_console (LogLockBusy taskName) w))
  ∧ (∀ fn' w now',
       clock w ≠ 0%Z → (now' - clock w < timeoutMinutes * 60 * 1000)%Z →
       let running := set_taskLocks (insert taskName (clock w)) w in
       withTaskLock taskName timeoutMinutes fn' (set_clock now' running)
       = (Return 0%Z, add_console (LogLockBusy taskName) (set_clock now' running)))
  ∧ (∀ fn w r w1,
       lock_is_fresh (taskLocks w !! taskName) (clock w) timeoutMinutes = false →
       fn (set_taskLocks (insert taskName (clock w)) w) = (r, w1) →
       let after := set_taskLocks (delete taskName) w1 in
       withTaskLock taskName timeoutMinutes fn w = (r, after)
       ∧ taskLocks after !! taskName = None
       ∧ ∀ timeout' fn' now',
           let later := set_clock now' after in
           withTaskLock taskName timeout' fn' later
           = let (r', w3) := fn' (set_taskLocks (insert taskName now') later) in
             (r', set_taskLocks (delete taskName) w3)).
Proof.
  split; [|split].
  - intros fn w t. apply withTaskLock_busy.
  - intros fn' w now' Hnow Hage running.
    apply (withTaskLock_busy _ _ _ _ (clock w)); [|done|done].
    simpl. apply lookup_insert_eq.
  - intros fn w r w1 Hfree Hfn after.
    assert (taskLocks after !! taskName = None) as Hgone.
    { simpl. apply lookup_delete_eq. }
    split; [|split; [done|]].
    + by rewrite withTaskLock_unfold, Hfree, Hfn.
    + intros timeout' fn' now' later.
      by rewrite withTaskLock_free.
Qed.

Lemma withTaskLock_spec_witness :
  let x := lit "x" in
  let w0 := mkWorld ∅ 1700000000000 [] [] in
  let fn : M Z := console_write (LogProcessed 7) ;; ret 7%Z in
  let boom : M Z := throw (Failure "boom") in
  let held := mkWorld {[ x := 1700000000000%Z ]} 1700000030000 [] [] in
  let running := set_taskLocks (insert x (clock w0)) w0 in
  let after := set_taskLocks (delete x) running in
  withTaskLock x 5 fn held = (Return 0%Z, add_console (LogLockBusy x) held)
  ∧ withTaskLock x 5 fn (set_clock 1700000030000 running)
    = (Return 0%Z, add_console (LogLockBusy x) (set_clock 1700000030000 running))
  ∧ withTaskLock x 5 boom w0 = (Throw (Failure "boom"), after)
  ∧ taskLocks after !! x = None
  ∧ fst (withTaskLock x 5 fn (set_clock 1700000030000 after)) = Return 7%Z.
Proof.
  intros x w0 fn boom held running after.
  destruct (withTaskLock_spec x 5) as (Hbusy & Hsecond & Hrun).
  split; [|split].
  - apply (Hbusy fn held 1700000000000%Z); [by vm_compute|lia|simpl; lia].
  - apply (Hsecond fn w0 1700000030000%Z); simpl; lia.
  - destruct (Hrun boom w0 (Throw (Failure "boom")) running) as (Hcall & Hgone & Hnext);
      [by vm_compute|reflexivity|].
    split; [exact Hcall|]. split; [exact Hgone|].
    unfold after. rewrite (Hnext 5%Z fn 1700000030000%Z). reflexivity.
Defined.

End LockFacts.

Section SequenceFacts.

Import Scheduler.

Implicit Types w : World.
Implicit Types Q : QueueModule.

(** A call with an options object takes the lock and runs the callback,
    with 200 for a batch size that is not given. *)
Lemma processSequences_with Q options_batchSize :
  processSequences Q (WithOptions options_batchSize)
  = withTaskLock (lit "processSequences") 5
      (processSequences_callback Q (default 200%Z options_batchSize)).
Proof. reflexivity. Qed.

Lemma processSequences_callback_returns Q batchSize w :
  ∃ n w', processSequences_callback Q batchSize w = (Return n, w').
Proof.
  unfold processSequences_callback.
  destruct (queue_function Q) as [fn|]; [|by eexists _, _].
  unfold try_catch, bind. destruct (fn batchSize w) as [[n|e] w1]; by eexists _, _.
Qed.

(** [processSequences] never ends by an exception. *)
Lemma processSequences_returns Q options_batchSize w :
  ∃ n w', processSequences Q (WithOptions options_batchSize) w = (Return n, w').
Proof.
  rewrite processSequences_with, withTaskLock_unfold.
  destruct (lock_is_fresh _ _ _); [by eexists _, _|].
  destruct (processSequences_callback_returns Q (default 200%Z options_batchSize)
              (set_taskLocks (insert (lit "processSequences") (clock w)) w))
    as (n & w' & ->).
  by eexists _, _.
Qed.




End SequenceFacts.

(** ** The dispatcher *)

Section DispatchFacts.

Import Scheduler.

Implicit Types w : World.
Implicit Types lead : Lead.
Implicit Types mensaje : option Mensaje.
Implicit Types sock : Sock.

Lemma sendMessage_run sock jid payload w :
  sendMessage sock jid payload w
  = (match deliver sock jid payload with
     | None => Return tt
     | Some e => Throw e
     end, add_sent (jid, payload) w).
Proof.
  unfold sendMessage, bind, modify. simpl.
  by destruct (deliver sock jid payload).
Qed.

(** Sending a piece of content when it is not empty records one call, and
    touches nothing else. *)
Lemma send_if_truthy_run sock jid payload content w :
  let m := if truthy content then sendMessage sock jid (payload content)
           else ret tt in
  sent (m w).2 = sent w ++ Spec.outbound jid payload content
  ∧ console (m w).2 = console w
  ∧ taskLocks (m w).2 = taskLocks w ∧ clock (m w).2 = clock w.
Proof.
  unfold Spec.outbound. destruct (truthy content); simpl.
  - by rewrite sendMessage_run.
  - by rewrite app_nil_r.
Qed.

(** The handler of [enviarMensaje] turns any exception into a console
    line. *)
Lemma enviarMensaje_catch parse sockopt lead mensaje w :
  enviarMensaje parse sockopt lead mensaje w
  = (Return tt,
     match (enviarMensaje_try parse sockopt lead mensaje w).1 with
     | Return _ => (enviarMensaje_try parse sockopt lead mensaje w).2
     | Throw err =>
         add_console (ErrorEnviarMensaje err)
           (enviarMensaje_try parse sockopt lead mensaje w).2
     end).
Proof.
  unfold enviarMensaje, try_catch.
  by destruct (enviarMensaje_try parse sockopt lead mensaje w) as [[[]|err] w'].
Qed.

Lemma enviarMensaje_sent parse sockopt lead mensaje w :
  sent (enviarMensaje parse sockopt lead mensaje w).2
  = sent (enviarMensaje_try parse sockopt lead mensaje w).2.
Proof.
  rewrite enviarMensaje_catch. simpl.
  by destruct (enviarMensaje_try parse sockopt lead mensaje w).1.
Qed.

(** C4.  [enviarMensaje] always returns, whatever the lead, the message,
    the channel and the state.  An exception raised inside it, by a
    rejected send or by [encodeURIComponent], ends as a line on the console
    and goes no further; a missing handle and an empty phone end as a
    warning on the console and change nothing else. *)
Theorem enviarMensaje_never_throws parse sockopt lead mensaje w :
  let attempt := enviarMensaje_try parse sockopt lead mensaje w in
  let after := enviarMensaje parse sockopt lead mensaje w in
  after.1 = Return tt
  ∧ after.2
    = match attempt.1 with
      | Return _ => attempt.2
      | Throw err => add_console (ErrorEnviarMensaje err) attempt.2
      end
  ∧ (sockopt = None → after.2 = add_console WarnNoSocket w)
  ∧ (sockopt ≠ None → toE164 parse (lead_phone lead) = [] →
     after.2 = add_console WarnNoPhone w).
Proof.
  intros attempt after. subst attempt after.
  rewrite enviarMensaje_catch. split; [done|]. split; [done|]. split.
  - by intros ->.
  - intros Hsock He. destruct sockopt as [sock|]; [|done].
    unfold enviarMensaje_try. by rewrite He.
Qed.

Lemma enviarMensaje_never_throws_witness :
  let lead : Lead := {[ lit "nombre" := lit "Juan Perez"; lit "telefono" := lit "s/n" ]} in
  let sock := mkSock (λ _ _, None) in
  let w0 := mkWorld ∅ 1700000000000 [] [] in
  let mensaje := Some (mkMensaje (Some (lit "texto")) (Some (lit "Hola"))) in
  (enviarMensaje national_parser None lead mensaje w0).2 = add_console WarnNoSocket w0
  ∧ (enviarMensaje national_parser (Some sock) lead mensaje w0).2
    = add_console WarnNoPhone w0.
Proof.
  intros lead sock w0 mensaje. split.
  - by apply (enviarMensaje_never_throws national_parser None lead mensaje w0).
  - by apply (enviarMensaje_never_throws national_parser (Some sock) lead mensaje w0).
Defined.

Lemma mensaje_tipo_declared mensaje :
  mensaje_tipo mensaje = toLowerCase (Spec.declared_type mensaje).
Proof.
  unfold mensaje_tipo, Spec.declared_type.
  destruct mensaje as [[[[|c t]|] cont]|]; reflexivity.
Qed.

Lemma lower_eq_iff x y :
  between 65 90 y = false →
  lower x = y ↔ (x = y ∨ (between 65 90 x = true ∧ y = x + 32)
                 ∨ (between 65 90 y = true ∧ x = y + 32)).
Proof.
  intros Hy. unfold lower. split.
  - destruct (between 65 90 x) eqn:Hx; intros <-; auto.
  - intros [->|[[Hx ->]|[Hy' _]]]; [by rewrite Hy|by rewrite Hx|congruence].
Qed.

(** Comparing the lower-cased string with a lower-case label is comparing
    with the label up to the case of the letters. *)
Lemma toLowerCase_eq_iff (a label : jsstring) :
  Forall (λ y, between 65 90 y = false) label →
  toLowerCase a = label ↔ Spec.equal_ignoring_case a label.
Proof.
  unfold Spec.equal_ignoring_case, toLowerCase. intros Hlabel.
  revert a. induction Hlabel as [|y label Hy _ IH]; intros [|x a]; simpl.
  - split; [constructor|done].
  - split; [done|]. intros H; inversion H.
  - split; [done|]. intros H; inversion H.
  - split.
    + intros [= Hx Ha]. constructor; [by apply lower_eq_iff|by apply IH].
    + intros H. inversion H as [|? ? ? ? Hxy Hrest]; subst.
      f_equal; [by apply lower_eq_iff|by apply IH].
Qed.

Lemma known_types_lower label :
  label ∈ Spec.known_types → Forall (λ y, between 65 90 y = false) label.
Proof.
  unfold Spec.known_types. rewrite !elem_of_cons, elem_of_nil.
  intros [->|[->|[->|[->|[->|[]]]]]]; by repeat constructor.
Qed.

Lemma mensaje_tipo_known mensaje label :
  label ∈ Spec.known_types →
  mensaje_tipo mensaje = label
  ↔ Spec.equal_ignoring_case (Spec.declared_type mensaje) label.
Proof.
  intros Hl. rewrite mensaje_tipo_declared.
  by apply toLowerCase_eq_iff, known_types_lower.
Qed.

(** Past the two guards, [enviarMensaje] is the [switch] under the
    handler. *)
Lemma enviarMensaje_try_reached parse sock lead mensaje :
  toE164 parse (lead_phone lead) ≠ [] →
  enviarMensaje_try parse (Some sock) lead mensaje
  = dispatch sock (toE164 parse (lead_phone lead)) lead mensaje.
Proof.
  intros He%truthy_true. unfold enviarMensaje_try. by rewrite He.
Qed.

Ltac decide_labels :=
  repeat match goal with
  | |- context [eqb (lit ?a) (lit ?b)] =>
      let v := eval vm_compute in (eqb (lit a) (lit b)) in
      change (eqb (lit a) (lit b)) with v
  end; cbv iota.

Lemma dispatch_texto sock e164 lead mensaje :
  mensaje_tipo mensaje = lit "texto" →
  dispatch sock e164 lead mensaje
  = let text := trim (replacePlaceholders (mensaje_contenido mensaje) lead) in
    if truthy text then sendMessage sock (e164ToJid e164) (PText text false)
    else ret tt.
Proof. intros H. unfold dispatch. rewrite H. by decide_labels. Qed.

Lemma dispatch_formulario sock e164 lead mensaje :
  mensaje_tipo mensaje = lit "formulario" →
  dispatch sock e164 lead mensaje
  = match formulario_text e164 lead (mensaje_contenido mensaje) with
    | None => throw URIError
    | Some text =>
        if truthy text then sendMessage sock (e164ToJid e164) (PText text false)
        else ret tt
    end.
Proof. intros H. unfold dispatch. rewrite H. by decide_labels. Qed.

Lemma dispatch_audio sock e164 lead mensaje :
  mensaje_tipo mensaje = lit "audio" →
  dispatch sock e164 lead mensaje
  = let url := trim (replacePlaceholders (mensaje_contenido mensaje) lead) in
    if truthy url then sendMessage sock (e164ToJid e164) (PAudio url true)
    else ret tt.
Proof. intros H. unfold dispatch. rewrite H. by decide_labels. Qed.

Lemma dispatch_imagen sock e164 lead mensaje :
  mensaje_tipo mensaje = lit "imagen" →
  dispatch sock e164 lead mensaje
  = let url := trim (replacePlaceholders (mensaje_contenido mensaje) lead) in
    if truthy url then sendMessage sock (e164ToJid e164) (PImage url)
    else ret tt.
Proof. intros H. unfold dispatch. rewrite H. by decide_labels. Qed.

Lemma dispatch_video sock e164 lead mensaje :
  mensaje_tipo mensaje = lit "video" →
  dispatch sock e164 lead mensaje
  = let url := trim (replacePlaceholders (mensaje_contenido mensaje) lead) in
    if truthy url then sendMessage sock (e164ToJid e164) (PVideo url)
    else ret tt.
Proof. intros H. unfold dispatch. rewrite H. by decide_labels. Qed.

Lemma dispatch_unknown sock e164 lead mensaje :
  mensaje_tipo mensaje ∉ Spec.known_types →
  dispatch sock e164 lead mensaje
  = console_write (WarnUnknownType (mensaje ≫= type)).
Proof.
  unfold Spec.known_types. rewrite !not_elem_of_cons.
  intros (H1 & H2 & H3 & H4 & H5 & _). unfold dispatch, eqb.
  by rewrite !bool_decide_eq_false_2.
Qed.

Lemma formulario_sent sock e164 lead mensaje w :
  let m := match formulario_text e164 lead (mensaje_contenido mensaje) with
           | None => throw URIError
           | Some text =>
               if truthy text
               then sendMessage sock (e164ToJid e164) (PText text false)
               else ret tt
           end in
  sent (m w).2
  = sent w ++ match formulario_text e164 lead (mensaje_contenido mensaje) with
              | Some text =>
                  Spec.outbound (e164ToJid e164) (λ text, PText text false) text
              | None => []
              end.
Proof.
  simpl. destruct (formulario_text _ _ _) as [text|].
  - apply (send_if_truthy_run sock _ (λ text, PText text false)).
  - simpl. by rewrite app_nil_r.
Qed.

(** C1, as the code has it.  Once the channel handle is there and the
    phone is not empty, the dispatcher compares the declared type, [texto]
    when none is declared, with [texto], [formulario], [audio], [imagen]
    and [video], ignoring the case of the letters.  For [texto] it renders
    the template against the lead, trims it, and sends it as plain text
    exactly when the result is not empty; [audio], [imagen] and [video]
    send the same text as a media reference; [formulario] sends the text of
    the form; any other type sends nothing and writes a warning. *)
Theorem dispatch_by_type parse sock lead mensaje w :
  let e164 := toE164 parse (lead_phone lead) in
  let jid := e164ToJid e164 in
  let ty := Spec.declared_type mensaje in
  let rendered := trim (replacePlaceholders (mensaje_contenido mensaje) lead) in
  let w' := (enviarMensaje parse (Some sock) lead mensaje w).2 in
  e164 ≠ [] →
  (Spec.equal_ignoring_case ty (lit "texto") →
     sent w' = sent w ++ Spec.outbound jid (λ text, PText text false) rendered)
  ∧ (Spec.equal_ignoring_case ty (lit "formulario") →
     sent w' = sent w ++
       match formulario_text e164 lead (mensaje_contenido mensaje) with
       | Some text => Spec.outbound jid (λ text, PText text false) text
       | None => []
       end)
  ∧ (Spec.equal_ignoring_case ty (lit "audio") →
     sent w' = sent w ++ Spec.outbound jid (λ url, PAudio url true) rendered)
  ∧ (Spec.equal_ignoring_case ty (lit "imagen") →
     sent w' = sent w ++ Spec.outbound jid (λ url, PImage url) rendered)
  ∧ (Spec.equal_ignoring_case ty (lit "video") →
     sent w' = sent w ++ Spec.outbound jid (λ url, PVideo url) rendered)
  ∧ ((∀ known, known ∈ Spec.known_types → ¬ Spec.equal_ignoring_case ty known) →
     sent w' = sent w
     ∧ console w' = console w ++ [WarnUnknownType (mensaje ≫= type)]).
Proof.
  intros e164 jid ty rendered w' He. subst w'.
  assert (∀ label, label ∈ Spec.known_types →
            Spec.equal_ignoring_case ty label → mensaje_tipo mensaje = label) as Hty.
  { intros label Hl. by apply mensaje_tipo_known. }
  rewrite enviarMensaje_sent, enviarMensaje_catch, enviarMensaje_try_reached by done.
  fold e164. repeat split.
  - intros H%Hty; [|set_solver]. rewrite dispatch_texto by done.
    apply (send_if_truthy_run sock jid (λ text, PText text false)).
  - intros H%Hty; [|set_solver]. rewrite dispatch_formulario by done.
    apply formulario_sent.
  - intros H%Hty; [|set_solver]. rewrite dispatch_audio by done.
    apply (send_if_truthy_run sock jid (λ url, PAudio url true)).
  - intros H%Hty; [|set_solver]. rewrite dispatch_imagen by done.
    apply (send_if_truthy_run sock jid (λ url, PImage url)).
  - intros H%Hty; [|set_solver]. rewrite dispatch_video by done.
    apply (send_if_truthy_run sock jid (λ url, PVideo url)).
  - rewrite dispatch_unknown; [done|].
    intros Hin. apply (H _ Hin). by apply mensaje_tipo_known.
  - rewrite dispatch_unknown; [done|].
    intros Hin. apply (H _ Hin). by apply mensaje_tipo_known.
Qed.

Lemma dispatch_by_type_witness :
  let lead : Lead :=
    {[ lit "telefono" := lit "55 1234 5678"; lit "nombre" := lit "Juan Perez" ]} in
  let sock := mkSock (λ _ _, None) in
  let w0 := mkWorld ∅ 1700000000000 [] [] in
  let saludo := Some (mkMensaje (Some (lit "TeXto")) (Some (lit " Hola {{nombre}} "))) in
  let sticker := Some (mkMensaje (Some (lit "sticker")) (Some (lit "Hola"))) in
  sent (enviarMensaje national_parser (Some sock) lead saludo w0).2
  = [(lit "5215512345678@s.whatsapp.net", PText (lit "Hola Juan") false)]
  ∧ sent (enviarMensaje national_parser (Some sock) lead sticker w0).2 = []
  ∧ console (enviarMensaje national_parser (Some sock) lead sticker w0).2
    = [WarnUnknownType (Some (lit "sticker"))].
Proof.
  intros lead sock w0 saludo sticker.
  assert (toE164 national_parser (lead_phone lead) ≠ []) as He by by vm_compute.
  split.
  - destruct (dispatch_by_type national_parser sock lead saludo w0 He) as (Htexto & _).
    etrans; [apply Htexto|by vm_compute].
    apply toLowerCase_eq_iff; [by repeat constructor|reflexivity].
  - destruct (dispatch_by_type national_parser sock lead sticker w0 He)
      as (_ & _ & _ & _ & _ & Hother).
    apply Hother. intros known Hknown Hci.
    apply toLowerCase_eq_iff in Hci; [|by apply known_types_lower].
    revert Hknown. rewrite <- Hci. unfold Spec.known_types.
    rewrite !elem_of_cons, elem_of_nil. vm_compute. intuition discriminate.
Defined.

(** C1 as the specification words it fails: a descriptor of type [text] is
    not one the dispatcher knows.  The rendered, trimmed template is not
    empty, and still nothing is sent; a warning is written. *)
Lemma dispatch_type_text_not_sent :
  let lead : Lead :=
    {[ lit "telefono" := lit "5512345678"; lit "nombre" := lit "Juan Perez" ]} in
  let sock := mkSock (λ _ _, None) in
  let w0 := mkWorld ∅ 1700000000000 [] [] in
  let mensaje := Some (mkMensaje (Some (lit "text")) (Some (lit "Hola {{nombre}}"))) in
  trim (replacePlaceholders (mensaje_contenido mensaje) lead) = lit "Hola Juan"
  ∧ (enviarMensaje national_parser (Some sock) lead mensaje w0).1 = Return tt
  ∧ sent (enviarMensaje national_parser (Some sock) lead mensaje w0).2 = []
  ∧ console (enviarMensaje national_parser (Some sock) lead mensaje w0).2
    = [WarnUnknownType (Some (lit "text"))].
Proof. by vm_compute. Qed.

Lemma outbound_length jid payload content :
  (length (Spec.outbound jid payload content) ≤ 1)%nat.
Proof. unfold Spec.outbound. destruct (truthy content); simpl; lia. Qed.

Lemma outbound_empty jid payload : Spec.outbound jid payload [] = [].
Proof. done. Qed.

Lemma outbound_one jid payload content :
  content ≠ [] → Spec.outbound jid payload content = [(jid, payload content)].
Proof. intros H%truthy_true. unfold Spec.outbound. by rewrite H. Qed.

(** What a known type sends: its content, when there is some. *)
Lemma dispatch_known_sent sock e164 lead mensaje w :
  mensaje_tipo mensaje ∈ Spec.known_types →
  ∃ payload,
    sent (dispatch sock e164 lead mensaje w).2
    = sent w ++ match Spec.content_to_send e164 lead mensaje with
                | Some content => Spec.outbound (e164ToJid e164) payload content
                | None => []
                end.
Proof.
  unfold Spec.known_types, Spec.content_to_send.
  rewrite !elem_of_cons, elem_of_nil.
  intros [H|[H|[H|[H|[H|[]]]]]].
  - exists (λ text, PText text false).
    rewrite dispatch_texto, H by done. decide_labels.
    apply (send_if_truthy_run sock _ (λ text, PText text false)).
  - exists (λ text, PText text false).
    rewrite dispatch_formulario, H by done. decide_labels.
    apply formulario_sent.
  - exists (λ url, PAudio url true).
    rewrite dispatch_audio, H by done. decide_labels.
    apply (send_if_truthy_run sock _ (λ url, PAudio url true)).
  - exists (λ url, PImage url).
    rewrite dispatch_imagen, H by done. decide_labels.
    apply (send_if_truthy_run sock _ (λ url, PImage url)).
  - exists (λ url, PVideo url).
    rewrite dispatch_video, H by done. decide_labels.
    apply (send_if_truthy_run sock _ (λ url, PVideo url)).
Qed.

(** Building the content fails only in the [formulario] case, on a name
    [encodeURIComponent] rejects. *)
Lemma content_to_send_None e164 lead mensaje :
  Spec.content_to_send e164 lead mensaje = None
  ↔ mensaje_tipo mensaje = lit "formulario"
    ∧ encodeURIComponent (or_empty (lead !! lit "nombre")) = None.
Proof.
  unfold Spec.content_to_send, eqb, formulario_text.
  destruct (decide (mensaje_tipo mensaje = lit "formulario")) as [Hf|Hf].
  - rewrite bool_decide_eq_true_2 by done.
    destruct (encodeURIComponent _); split; [done|by intros [_ ?]|done|done].
  - rewrite bool_decide_eq_false_2 by done.
    split; [done|]. by intros [? _].
Qed.

(** C8, as the code has it.  One call of [enviarMensaje] makes at most one
    call of [sock.sendMessage].  It makes none when the channel handle is
    missing, when the phone is empty, when the type is not a known one,
    when the content is empty after trimming, and when building the content
    throws, which is the case of a form for a lead whose name
    [encodeURIComponent] rejects; it makes one otherwise. *)
Theorem enviarMensaje_at_most_one_send parse sockopt lead mensaje w :
  let e164 := toE164 parse (lead_phone lead) in
  let content := Spec.content_to_send e164 lead mensaje in
  ∃ l, sent (enviarMensaje parse sockopt lead mensaje w).2 = sent w ++ l
    ∧ (length l ≤ 1)%nat
    ∧ (sockopt = None → l = [])
    ∧ (e164 = [] → l = [])
    ∧ (mensaje_tipo mensaje ∉ Spec.known_types → l = [])
    ∧ (content = Some [] → l = [])
    ∧ (mensaje_tipo mensaje = lit "formulario" →
       encodeURIComponent (or_empty (lead !! lit "nombre")) = None → l = [])
    ∧ (sockopt ≠ None → e164 ≠ [] → mensaje_tipo mensaje ∈ Spec.known_types →
       (∃ text, content = Some text ∧ text ≠ []) → length l = 1%nat).
Proof.
  intros e164 content. rewrite enviarMensaje_sent.
  destruct sockopt as [sock|]; cycle 1.
  { exists []. simpl. rewrite app_nil_r. repeat split; auto; done. }
  destruct (decide (e164 = [])) as [He|He].
  { exists []. unfold enviarMensaje_try. fold e164. rewrite He. simpl.
    rewrite app_nil_r. repeat split; auto; done. }
  rewrite enviarMensaje_try_reached by done. fold e164.
  destruct (decide (mensaje_tipo mensaje ∈ Spec.known_types)) as [Hk|Hk]; cycle 1.
  { exists []. rewrite dispatch_unknown by done. simpl.
    rewrite app_nil_r. repeat split; auto; done. }
  destruct (dispatch_known_sent sock e164 lead mensaje w Hk) as [payload Hsent].
  fold content in Hsent.
  exists (match content with
          | Some c => Spec.outbound (e164ToJid e164) payload c
          | None => []
          end).
  split; [done|]. repeat split.
  - destruct content; [apply outbound_length|simpl; lia].
  - done.
  - done.
  - done.
  - by intros ->.
  - intros Hf Henc.
    assert (content = None) as -> by by apply content_to_send_None.
    done.
  - intros _ _ _ (text & -> & Htext). by rewrite outbound_one.
Qed.

Lemma enviarMensaje_at_most_one_send_witness :
  let lead : Lead :=
    {[ lit "whatsapp" := lit "+52 55 1234 5678"; lit "nombre" := lit "Juan Perez" ]} in
  let sock := mkSock (λ _ _, Some (Failure "connection closed")) in
  let w0 := mkWorld ∅ 1700000000000 [] [] in
  let mensaje := Some (mkMensaje (Some (lit "imagen")) (Some (lit "https://cdn/{{nombre}}.png"))) in
  ∃ l, sent (enviarMensaje national_parser (Some sock) lead mensaje w0).2 = sent w0 ++ l
       ∧ length l = 1%nat.
Proof.
  intros lead sock w0 mensaje.
  destruct (enviarMensaje_at_most_one_send national_parser (Some sock) lead mensaje w0)
    as (l & Hsent & _ & _ & _ & _ & _ & _ & Hone).
  exists l. split; [exact Hsent|]. apply Hone.
  - done.
  - by vm_compute.
  - unfold Spec.known_types. rewrite !elem_of_cons. right; right; right; left.
    reflexivity.
  - exists (lit "https://cdn/Juan.png"). split; [reflexivity|done].
Defined.

(** C8 as the specification words it fails: the handle is there, the phone
    is not empty, the type is a known one and the content is [Hola]
    whatever the placeholders stand for, and nothing is sent, because
    [encodeURIComponent] throws on the lead's name, a lone surrogate. *)
Lemma enviarMensaje_form_bad_name_no_send :
  let lead : Lead :=
    {[ lit "telefono" := lit "5512345678"; lit "nombre" := [55296] ]} in
  let sock := mkSock (λ _ _, None) in
  let w0 := mkWorld ∅ 1700000000000 [] [] in
  let mensaje := Some (mkMensaje (Some (lit "formulario")) (Some (lit "Hola"))) in
  toE164 national_parser (lead_phone lead) = lit "+525512345678"
  ∧ mensaje_tipo mensaje = lit "formulario"
  ∧ (∀ digits nombre,
       trim (replace_newlines
               (replace (lit "{{nombre}}") nombre
                  (replace (lit "{{telefono}}") digits (mensaje_contenido mensaje))))
       = lit "Hola")
  ∧ (enviarMensaje national_parser (Some sock) lead mensaje w0).1 = Return tt
  ∧ sent (enviarMensaje national_parser (Some sock) lead mensaje w0).2 = []
  ∧ console (enviarMensaje national_parser (Some sock) lead mensaje w0).2
    = [ErrorEnviarMensaje URIError].
Proof. by vm_compute. Qed.

(** A rejected send is a call made all the same, and it ends on the
    console. *)
Example enviarMensaje_rejected_send :
  let lead : Lead := {[ lit "phone" := lit "5512345678" ]} in
  let sock := mkSock (λ _ _, Some (Failure "connection closed")) in
  let w0 := mkWorld ∅ 1700000000000 [] [] in
  let mensaje := Some (mkMensaje None (Some (lit "Hola"))) in
  enviarMensaje national_parser (Some sock) lead mensaje w0
  = (Return tt,
     mkWorld ∅ 1700000000000
       [(lit "5215512345678@s.whatsapp.net", PText (lit "Hola") false)]
       [ErrorEnviarMensaje (Failure "connection closed")]).
Proof. by vm_compute. Qed.

End DispatchFacts.

(** ** The text of a form *)

Section ReplaceFacts.

Implicit Types s pat repl a b x y : jsstring.

Lemma split_first_unfold pat s :
  split_first pat s
  = if startsWith pat s then Some ([], drop (length pat) s)
    else match s with
         | [] => None
         | c :: s' =>
             match split_first pat s' with
             | Some (before, after) => Some (c :: before, after)
             | None => None
             end
         end.
Proof. by destruct s. Qed.

Lemma includes_unfold pat s :
  includes pat s
  = startsWith pat s
    || match s with [] => false | _ :: s' => includes pat s' end.
Proof. by destruct s. Qed.

(** Whether [p] is a prefix is decided by the first [length p] code
    units. *)
Lemma startsWith_app_l p x y :
  (length p ≤ length x)%nat → startsWith p (x ++ y) = startsWith p x.
Proof.
  revert x. induction p as [|c p IH]; intros [|d x] Hl; simpl in *; try done; try lia.
  rewrite IH by lia. done.
Qed.

Lemma startsWith_nil_r p : p ≠ [] → startsWith p [] = false.
Proof. by destruct p. Qed.

(** A replacement without a dollar stands for itself. *)
Lemma GetSubstitution_plain matched before after repl :
  Forall (λ c, c ≠ 36) repl →
  GetSubstitution matched before after repl = repl.
Proof.
  induction 1 as [|c r Hc _ IH]; simpl; [done|].
  apply N.eqb_neq in Hc. by rewrite Hc, IH.
Qed.

Lemma split_first_absent pat s : includes pat s = false → split_first pat s = None.
Proof.
  induction s as [|c s IH]; rewrite includes_unfold, split_first_unfold;
    intros [-> H]%orb_false_elim; [done|]. by rewrite IH.
Qed.

(** The occurrence of [pat] after [a] is the first one when [pat] does not
    occur in [a] followed by all of [pat] but its last code unit. *)
Lemma split_first_intro pat a b :
  pat ≠ [] → includes pat (a ++ removelast pat) = false →
  split_first pat (a ++ pat ++ b) = Some (a, b).
Proof.
  intros Hpat. induction a as [|c a IH]; intros Hfirst.
  - rewrite split_first_unfold. simpl. rewrite startsWith_app.
    by rewrite drop_app_length.
  - rewrite includes_unfold in Hfirst. simpl in Hfirst.
    apply orb_false_elim in Hfirst as [Hhere Hlater].
    rewrite split_first_unfold.
    assert (startsWith pat ((c :: a) ++ pat ++ b) = false) as ->.
    { rewrite (app_removelast_last 0 Hpat) at 2. rewrite <- !app_assoc.
      rewrite (app_assoc (c :: a)). rewrite startsWith_app_l; [done|].
      rewrite (app_removelast_last 0 Hpat) at 1.
      rewrite !length_app. simpl. lia. }
    simpl. by rewrite IH.
Qed.

Lemma replace_first pat repl a b :
  pat ≠ [] → includes pat (a ++ removelast pat) = false →
  Forall (λ c, c ≠ 36) repl →
  replace pat repl (a ++ pat ++ b) = a ++ repl ++ b.
Proof.
  intros Hpat Hfirst Hrepl. unfold replace.
  by rewrite split_first_intro, GetSubstitution_plain.
Qed.

Lemma replace_absent pat repl s : includes pat s = false → replace pat repl s = s.
Proof. intros H. unfold replace. by rewrite split_first_absent. Qed.

Lemma includes_app_l pat x y : includes pat x = true → includes pat (x ++ y) = true.
Proof.
  induction x as [|c x IH]; rewrite includes_unfold, (includes_unfold _ (_ ++ _)).
  - rewrite orb_false_r. destruct pat; [|done]. by destruct y.
  - intros [H|H]%orb_prop.
    + apply startsWith_inv in H. rewrite H, <- app_assoc, startsWith_app. done.
    + simpl. rewrite IH by done. apply orb_true_r.
Qed.

Lemma includes_app_r pat x y : includes pat y = true → includes pat (x ++ y) = true.
Proof.
  intros H. induction x as [|c x IH]; [done|].
  rewrite includes_unfold. simpl. rewrite IH. apply orb_true_r.
Qed.

(** Digits put between two texts make no new occurrence of a pattern that
    has no digit in it. *)
Lemma startsWith_digits pat x d y :
  Forall (λ c, is_digit c = false) pat → d ≠ [] → forallb is_digit d = true →
  startsWith pat (x ++ d ++ y) = startsWith pat x.
Proof.
  intros Hpat Hd Hdig. revert x.
  induction Hpat as [|c pat Hc _ IH]; intros x; [by destruct x, d|].
  destruct x as [|e x]; simpl.
  - destruct d as [|f d]; [done|]. simpl in *.
    apply andb_prop in Hdig as [Hf _].
    destruct (N.eqb_spec c f) as [->|]; [congruence|done].
  - by rewrite IH.
Qed.

Lemma includes_digits_only pat d y :
  pat ≠ [] → Forall (λ c, is_digit c = false) pat → forallb is_digit d = true →
  includes pat (d ++ y) = includes pat y.
Proof.
  intros Hne Hpat. induction d as [|f d IH]; [done|]. simpl forallb.
  intros [Hf Hd]%andb_prop. rewrite includes_unfold. simpl.
  rewrite IH by done.
  destruct Hpat as [|c pat Hc _]; [done|]. simpl.
  destruct (N.eqb_spec c f) as [->|]; [congruence|done].
Qed.

Lemma includes_digits pat x d y :
  pat ≠ [] → Forall (λ c, is_digit c = false) pat →
  d ≠ [] → forallb is_digit d = true →
  includes pat (x ++ d ++ y) = includes pat x || includes pat y.
Proof.
  intros Hne Hpat Hd Hdig. induction x as [|e x IH].
  - simpl. rewrite includes_digits_only by done.
    by rewrite startsWith_nil_r.
  - rewrite includes_unfold, (includes_unfold _ (e :: x)).
    change ((e :: x) ++ d ++ y) with (e :: (x ++ d ++ y)) at 2.
    cbv iota. rewrite IH.
    change (e :: (x ++ d ++ y)) with ((e :: x) ++ d ++ y).
    rewrite startsWith_digits by done. by rewrite orb_assoc.
Qed.

Lemma strip_no_dollar s : Forall (λ c, c ≠ 36) (strip_non_digits s).
Proof.
  unfold strip_non_digits. induction s as [|c s IH]; simpl; [done|].
  destruct (is_digit c) eqn:Hc; [|done].
  constructor; [|done]. by intros ->.
Qed.

Lemma hex_digit_no_dollar d : hex_digit d ≠ 36.
Proof. unfold hex_digit. destruct (d <? 10); lia. Qed.

Lemma escape_no_dollar cp : Forall (λ c, c ≠ 36) (escape cp).
Proof.
  unfold escape. induction (utf8 cp) as [|b l IH]; simpl; [done|].
  repeat constructor; try done; apply hex_digit_no_dollar.
Qed.

Lemma uri_unescaped_no_dollar c : uri_unescaped c = true → c ≠ 36.
Proof. by intros H ->. Qed.

(** What [encodeURIComponent] returns has no dollar in it: it is made of
    unescaped characters and of [%XX] escapes. *)
Lemma encodeURIComponent_no_dollar s r :
  encodeURIComponent s = Some r → Forall (λ c, c ≠ 36) r.
Proof.
  remember (length s) as n eqn:Hn. revert s r Hn.
  induction n as [n IH] using lt_wf_ind. intros s r -> Henc.
  destruct s as [|c s]; simpl in Henc; [by injection Henc as <-|].
  destruct (uri_unescaped c) eqn:Hu.
  { destruct (encodeURIComponent s) as [r'|] eqn:Hs; [|done].
    injection Henc as <-. constructor; [by apply uri_unescaped_no_dollar|].
    eapply (IH (length s)); [simpl; lia|done|done]. }
  destruct (is_trail_surrogate c); [done|].
  destruct (is_lead_surrogate c).
  - destruct s as [|d s]; [done|].
    destruct (is_trail_surrogate d); [|done].
    destruct (encodeURIComponent s) as [r'|] eqn:Hs; [|done].
    injection Henc as <-. apply Forall_app. split; [apply escape_no_dollar|].
    eapply (IH (length s)); [simpl; lia|done|done].
  - destruct (encodeURIComponent s) as [r'|] eqn:Hs; [|done].
    injection Henc as <-. apply Forall_app. split; [apply escape_no_dollar|].
    eapply (IH (length s)); [simpl; lia|done|done].
Qed.

End ReplaceFacts.

Section FormFacts.

Import Scheduler.

Implicit Types w : World.
Implicit Types lead : Lead.
Implicit Types mensaje : option Mensaje.
Implicit Types a b enc digits : jsstring.

Lemma NOM_no_digit : Forall (λ c, is_digit c = false) (lit "{{nombre}}").
Proof. by repeat constructor. Qed.

Lemma not_includes_app pat (x y : jsstring) :
  includes pat (x ++ y) = false → includes pat x = false ∧ includes pat y = false.
Proof.
  intros H. split.
  - destruct (includes pat x) eqn:Hx; [|done].
    by rewrite (includes_app_l _ _ y Hx) in H.
  - destruct (includes pat y) eqn:Hy; [|done].
    by rewrite (includes_app_r _ x _ Hy) in H.
Qed.

(** The phone digits put for [{{telefono}}] leave the first [{{nombre}}]
    where it was. *)
Lemma NOM_first_after_digits a digits b :
  digits ≠ [] → forallb is_digit digits = true →
  includes (lit "{{nombre}}") (a ++ lit "{{telefono}}" ++ b) = false →
  includes (lit "{{nombre}}") (a ++ digits ++ b) = false.
Proof.
  intros Hd Hdig Hnone.
  apply not_includes_app in Hnone as [Ha [_ Hb]%not_includes_app].
  rewrite includes_digits; [by rewrite Ha, Hb|done|apply NOM_no_digit|done|done].
Qed.

(** The text of the form, when the name can be encoded: the two
    replacements with their arguments evaluated. *)
Lemma formulario_text_Some e164 lead contenido enc :
  encodeURIComponent (or_empty (lead !! lit "nombre")) = Some enc →
  formulario_text e164 lead contenido
  = Some (trim (replace_newlines
                  (replace (lit "{{nombre}}") enc
                     (replace (lit "{{telefono}}") (strip_non_digits e164)
                        contenido)))).
Proof.
  intros Henc. unfold formulario_text. by rewrite or_empty_Some, Henc.
Qed.

(** C10.  In the [formulario] case, reached with a handle and a phone that
    has a digit in it, only the first [{{telefono}}] of the template and
    only the first [{{nombre}}] are replaced, by the digits of
    the phone and by the URL-encoded name of the lead; the text around
    them, with any later [{{telefono}}] or [{{nombre}}] in it, goes into
    the message as it is written (line ends become spaces and the ends are
    trimmed, as for all of the text).  The four parts are: the first
    [{{nombre}}] before the first [{{telefono}}]; after it; a template with
    no [{{nombre}}]; a template with no [{{telefono}}]. *)
Theorem formulario_first_occurrence_only parse sock lead mensaje w enc :
  let e164 := toE164 parse (lead_phone lead) in
  let digits := strip_non_digits e164 in
  let contenido := mensaje_contenido mensaje in
  let send text :=
    Spec.outbound (e164ToJid e164) (λ text, PText text false)
      (trim (replace_newlines text)) in
  let w' := (enviarMensaje parse (Some sock) lead mensaje w).2 in
  e164 ≠ [] → digits ≠ [] →
  mensaje_tipo mensaje = lit "formulario" →
  encodeURIComponent (or_empty (lead !! lit "nombre")) = Some enc →
  (∀ a1 a2 b,
     contenido = a1 ++ lit "{{nombre}}" ++ a2 ++ lit "{{telefono}}" ++ b →
     includes (lit "{{nombre}}") (a1 ++ removelast (lit "{{nombre}}")) = false →
     includes (lit "{{telefono}}")
       (a1 ++ lit "{{nombre}}" ++ a2 ++ removelast (lit "{{telefono}}")) = false →
     sent w' = sent w ++ send (a1 ++ enc ++ a2 ++ digits ++ b))
  ∧ (∀ a b1 b2,
       contenido = a ++ lit "{{telefono}}" ++ b1 ++ lit "{{nombre}}" ++ b2 →
       includes (lit "{{telefono}}") (a ++ removelast (lit "{{telefono}}")) = false →
       includes (lit "{{nombre}}")
         (a ++ lit "{{telefono}}" ++ b1 ++ removelast (lit "{{nombre}}")) = false →
       sent w' = sent w ++ send (a ++ digits ++ b1 ++ enc ++ b2))
  ∧ (∀ a b,
       contenido = a ++ lit "{{telefono}}" ++ b →
       includes (lit "{{telefono}}") (a ++ removelast (lit "{{telefono}}")) = false →
       includes (lit "{{nombre}}") contenido = false →
       sent w' = sent w ++ send (a ++ digits ++ b))
  ∧ (∀ a b,
       contenido = a ++ lit "{{nombre}}" ++ b →
       includes (lit "{{nombre}}") (a ++ removelast (lit "{{nombre}}")) = false →
       includes (lit "{{telefono}}") contenido = false →
       sent w' = sent w ++ send (a ++ enc ++ b)).
Proof.
  intros e164 digits contenido send w' He Hd Htipo Henc. subst w'.
  rewrite enviarMensaje_sent, enviarMensaje_try_reached by done.
  rewrite dispatch_formulario by done. rewrite formulario_sent.
  fold e164 contenido. rewrite (formulario_text_Some _ _ _ enc Henc).
  fold digits. unfold send.
  pose proof (strip_no_dollar e164) as Hdollar. fold digits in Hdollar.
  pose proof (encodeURIComponent_no_dollar _ _ Henc) as Hdollar'.
  pose proof (strip_all_digits e164) as Hdig. fold digits in Hdig.
  repeat split.
  - intros a1 a2 b -> HN HT. do 4 f_equal.
    rewrite (app_assoc a1), (app_assoc (a1 ++ _)).
    rewrite replace_first; [|done|by rewrite <- !app_assoc|done].
    rewrite <- !app_assoc. by rewrite replace_first.
  - intros a b1 b2 -> HT HN. do 4 f_equal.
    rewrite replace_first by done.
    rewrite (app_assoc digits), (app_assoc a).
    rewrite replace_first; [by rewrite <- !app_assoc|done| |done].
    rewrite <- !app_assoc. by apply NOM_first_after_digits.
  - intros a b Hc HT HN. rewrite Hc in *. do 4 f_equal.
    rewrite replace_first by done.
    apply replace_absent. by apply NOM_first_after_digits.
  - intros a b Hc HN HT. rewrite (replace_absent _ _ _ HT), Hc. do 4 f_equal.
    by rewrite replace_first.
Qed.

Lemma formulario_first_occurrence_only_witness :
  let lead : Lead :=
    {[ lit "telefono" := lit "55 1234 5678"; lit "nombre" := lit "Juan Perez" ]} in
  let sock := mkSock (λ _ _, None) in
  let w0 := mkWorld ∅ 1700000000000 [] [] in
  let mensaje :=
    Some (mkMensaje (Some (lit "Formulario"))
            (Some (lit "{{telefono}} {{telefono}} {{nombre}} {{nombre}}"))) in
  sent (enviarMensaje national_parser (Some sock) lead mensaje w0).2
  = [(lit "5215512345678@s.whatsapp.net",
      PText (lit "525512345678 {{telefono}} Juan%20Perez {{nombre}}") false)].
Proof.
  intros lead sock w0 mensaje.
  destruct (formulario_first_occurrence_only national_parser sock lead mensaje w0
              (lit "Juan%20Perez")) as (_ & Hafter & _);
    [by vm_compute|by vm_compute|reflexivity|reflexivity|].
  apply (Hafter [] (lit " {{telefono}} ") (lit " {{nombre}}")); reflexivity.
Defined.

End FormFacts.

(** * More of the code *)

(** ** Phones: the other paths of [toE164], the two identifiers *)

Section PhoneMore.

Import Scheduler.

Implicit Types s d e phone : jsstring.
Implicit Types num : option jsstring.
Implicit Types parse : PhoneParser.

Lemma test_digits_exact n s :
  forallb is_digit s = true → test_digits n n s = (length s =? n)%nat.
Proof.
  intros Hd. unfold test_digits. rewrite Hd. simpl.
  destruct (Nat.eqb_spec (length s) n) as [->|Hne].
  - by rewrite Nat.leb_refl.
  - destruct (Nat.leb_spec n (length s)), (Nat.leb_spec (length s) n);
      simpl; try done; lia.
Qed.

Lemma strip_plus_digits p d :
  forallb is_digit d = true →
  strip_non_digits (lit "+" ++ p ++ d) = strip_non_digits p ++ d.
Proof.
  intros Hd. pose proof (strip_digits_id d Hd) as H.
  unfold strip_non_digits in *. simpl.
  by rewrite List.filter_app, H.
Qed.

(** What [toE164] gives when the strict parser rejects the digits. *)
Lemma toE164_rejected parse num :
  let raw := strip_non_digits (or_empty num) in
  raw ≠ [] → parse raw = None →
  toE164 parse num
  = (if (length raw =? 10)%nat then lit "+52" else lit "+") ++ raw.
Proof.
  intros raw Hne Hp. unfold toE164. fold raw.
  apply truthy_true in Hne. rewrite Hne, Hp. simpl negb. cbv iota.
  rewrite test_digits_exact by apply strip_all_digits.
  destruct (length raw =? 10)%nat; [done|].
  by repeat case_match.
Qed.

(** X1.  [toE164] gives the empty string exactly when its input has no
    digit in it ([undefined] and [''] included), in both copies; the
    parser is taken never to give an empty number. *)
Theorem toE164_empty_iff parse num :
  (∀ raw number, parse raw = Some number → number ≠ []) →
  (Scheduler.toE164 parse num = [] ↔ strip_non_digits (or_empty num) = [])
  ∧ (Server.toE164 parse num = [] ↔ strip_non_digits (or_empty num) = []).
Proof.
  intros Hparse. change (Server.toE164 parse num) with (toE164 parse num).
  assert (toE164 parse num = [] ↔ strip_non_digits (or_empty num) = []) as H;
    [|done].
  split.
  - intros He. destruct (strip_non_digits (or_empty num)) as [|c raw] eqn:Hraw;
      [done|].
    destruct (parse (c :: raw)) as [number|] eqn:Hp.
    + unfold toE164 in He. rewrite Hraw, Hp in He. simpl in He.
      by apply Hparse in Hp.
    + rewrite toE164_rejected in He by (rewrite ?Hraw; done).
      rewrite Hraw in He. by destruct (length (c :: raw) =? 10)%nat.
  - intros Hraw. unfold toE164. by rewrite Hraw.
Qed.

Lemma toE164_empty_iff_witness :
  Scheduler.toE164 national_parser (Some (lit "s/n")) = []
  ∧ Scheduler.toE164 national_parser None = []
  ∧ Server.toE164 national_parser (Some (lit "+1 (415) 555-2671")) ≠ [].
Proof.
  assert (∀ raw number, national_parser raw = Some number → number ≠ []) as Hp.
  { intros raw number. unfold national_parser.
    repeat case_match; try done. by intros [= <-]. }
  destruct (toE164_empty_iff national_parser (Some (lit "s/n")) Hp) as [H1 _].
  destruct (toE164_empty_iff national_parser None Hp) as [H2 _].
  destruct (toE164_empty_iff national_parser (Some (lit "+1 (415) 555-2671")) Hp)
    as [_ H3].
  split; [by apply H1|]. split; [by apply H2|].
  intros He. apply H3 in He. by vm_compute in He.
Defined.

(** X2.  When the strict parser rejects the digits, [toE164] gives [+52]
    and the digits when there are ten of them, and [+] and the digits in
    every other case: the two tests on eleven to fifteen digits change
    nothing.  Both copies. *)
Theorem toE164_fallback parse num :
  let raw := strip_non_digits (or_empty num) in
  raw ≠ [] → parse raw = None →
  Scheduler.toE164 parse num
  = (if (length raw =? 10)%nat then lit "+52" else lit "+") ++ raw
  ∧ Server.toE164 parse num
    = (if (length raw =? 10)%nat then lit "+52" else lit "+") ++ raw.
Proof.
  intros raw Hne Hp. change (Server.toE164 parse num) with (toE164 parse num).
  by rewrite toE164_rejected.
Qed.

Lemma toE164_fallback_witness :
  Scheduler.toE164 national_parser (Some (lit "+52 1 55 1234 5678")) = lit "+5215512345678"
  ∧ Server.toE164 national_parser (Some (lit "0155 1234 56")) = lit "+520155123456"
  ∧ Scheduler.toE164 national_parser (Some (lit "911")) = lit "+911".
Proof.
  split; [|split].
  - apply (toE164_fallback national_parser (Some (lit "+52 1 55 1234 5678"))); by vm_compute.
  - apply (toE164_fallback national_parser (Some (lit "0155 1234 56"))); by vm_compute.
  - apply (toE164_fallback national_parser (Some (lit "911"))); by vm_compute.
Defined.

(** X3.  The channel address [e164ToJid] gives depends on the digits of
    its input only, and is a string of digits that [normalizePhoneForWA]
    leaves as it is, followed by [@s.whatsapp.net]. *)
Theorem e164ToJid_local_part e :
  e164ToJid e = e164ToJid (strip_non_digits e)
  ∧ ∃ local, e164ToJid e = local ++ lit "@s.whatsapp.net"
      ∧ forallb is_digit local = true
      ∧ normalizePhoneForWA local = local.
Proof.
  unfold e164ToJid. rewrite !or_empty_Some, strip_idempotent.
  split; [done|].
  exists (normalizePhoneForWA (strip_non_digits e)).
  split; [done|]. split.
  - apply normalizePhoneForWA_all_digits.
  - apply normalizePhoneForWA_idempotent.
Qed.

Lemma startsWith_cons_digit c p d :
  startsWith (c :: p) (c :: d) = startsWith p d.
Proof. simpl. by rewrite N.eqb_refl. Qed.

Lemma jid_of_plus52 d :
  length d = 10%nat → forallb is_digit d = true →
  e164ToJid (lit "+52" ++ d)
  = (if startsWith (lit "1") d then lit "52" ++ d else lit "521" ++ d)
    ++ lit "@s.whatsapp.net".
Proof.
  intros Hl Hd. unfold e164ToJid. rewrite or_empty_Some.
  assert (strip_non_digits (lit "+52" ++ d) = lit "52" ++ d) as ->.
  { exact (strip_plus_digits (lit "52") d Hd). }
  unfold normalizePhoneForWA. rewrite or_empty_Some.
  assert (forallb is_digit (lit "52" ++ d) = true) as Hd'.
  { simpl. by rewrite Hd. }
  rewrite (strip_digits_id _ Hd').
  assert (length (lit "52" ++ d) = 12%nat) as -> by (simpl; by rewrite Hl).
  change (startsWith (lit "52") (lit "52" ++ d)) with (startsWith [] d).
  change (startsWith (lit "521") (lit "52" ++ d)) with (startsWith (lit "1") d).
  destruct d as [|c d]; [done|].
  destruct (startsWith (lit "1") (c :: d)); done.
Qed.

(** X4.  From a ten-digit national number to its channel address: [toE164]
    then [e164ToJid] give 521, the ten digits and [@s.whatsapp.net], unless
    the number begins with 1; then the address has 52 and the ten digits,
    twelve digits that already read as mobile-prefixed.  The parser is
    taken to give an accepted ten-digit number as +52 and the digits. *)
Theorem jid_of_national_number parse d :
  length d = 10%nat → forallb is_digit d = true →
  (∀ number, parse d = Some number → number = lit "+52" ++ d) →
  e164ToJid (toE164 parse (Some d))
  = (if startsWith (lit "1") d then lit "52" ++ d else lit "521" ++ d)
    ++ lit "@s.whatsapp.net".
Proof.
  intros Hl Hd Hparse.
  assert (toE164 parse (Some d) = lit "+52" ++ d) as ->.
  { destruct (parse d) as [number|] eqn:Hp.
    - unfold toE164. rewrite or_empty_Some, (strip_digits_id _ Hd).
      destruct d; [done|]. simpl. rewrite Hp. by apply Hparse.
    - rewrite toE164_rejected; rewrite or_empty_Some, (strip_digits_id _ Hd);
        [by rewrite Hl| by destruct d |done]. }
  by apply jid_of_plus52.
Qed.

Lemma jid_of_national_number_witness :
  e164ToJid (toE164 national_parser (Some (lit "5512345678")))
  = lit "5215512345678@s.whatsapp.net"
  ∧ e164ToJid (toE164 national_parser (Some (lit "1551234567")))
    = lit "521551234567@s.whatsapp.net".
Proof.
  split.
  - apply (jid_of_national_number national_parser (lit "5512345678"));
      [reflexivity|reflexivity|].
    intros number H. vm_compute in H. injection H as <-. reflexivity.
  - apply (jid_of_national_number national_parser (lit "1551234567"));
      [reflexivity|reflexivity|].
    intros number H. by vm_compute in H.
Defined.

(** X5.  Whatever it is given, [normalizePhoneForWA] returns a string of
    digits that it maps to itself; that string has thirteen digits or is
    the digits of the input. *)
Theorem normalizePhoneForWA_fixed_point phone :
  forallb is_digit (normalizePhoneForWA phone) = true
  ∧ normalizePhoneForWA (normalizePhoneForWA phone) = normalizePhoneForWA phone
  ∧ (length (normalizePhoneForWA phone) = 13%nat
     ∨ normalizePhoneForWA phone = strip_non_digits phone).
Proof.
  split; [apply normalizePhoneForWA_all_digits|].
  split; [apply normalizePhoneForWA_idempotent|].
  unfold normalizePhoneForWA. rewrite or_empty_Some.
  set (num := strip_non_digits phone).
  destruct ((length num =? 12)%nat && startsWith (lit "52") num
            && negb (startsWith (lit "521") num)) eqn:H12.
  - left. apply andb_prop in H12 as [[Hl%Nat.eqb_eq _]%andb_prop _].
    rewrite length_app, length_drop, Hl. done.
  - destruct (length num =? 10)%nat eqn:H10; [|by right].
    left. apply Nat.eqb_eq in H10. by rewrite length_app, H10.
Qed.

(** X6.  The lead identifier of the gateway and the channel address of the
    scheduler are the same string exactly when the digits need no mobile
    prefix; for [+52] and ten digits that do not begin with 1 they differ:
    the lead identifier keeps the twelve digits, the address has
    thirteen. *)
Theorem leadId_and_jid e :
  (Server.e164ToLeadId e = e164ToJid e
   ↔ normalizePhoneForWA e = strip_non_digits e)
  ∧ (∀ d, e = lit "+52" ++ d → length d = 10%nat → forallb is_digit d = true →
       startsWith (lit "1") d = false →
       Server.e164ToLeadId e = lit "52" ++ d ++ lit "@s.whatsapp.net"
       ∧ e164ToJid e = lit "521" ++ d ++ lit "@s.whatsapp.net").
Proof.
  split.
  - unfold Server.e164ToLeadId, e164ToJid. rewrite !or_empty_Some.
    assert (normalizePhoneForWA (strip_non_digits e) = normalizePhoneForWA e) as ->.
    { unfold normalizePhoneForWA. by rewrite !or_empty_Some, strip_idempotent. }
    split; [|by intros ->].
    intros H. by apply app_inv_tail in H.
  - intros d -> Hl Hd H1. split.
    + unfold Server.e164ToLeadId. rewrite or_empty_Some.
      assert (strip_non_digits (lit "+52" ++ d) = lit "52" ++ d) as ->
        by exact (strip_plus_digits (lit "52") d Hd).
      by rewrite <- app_assoc.
    + rewrite jid_of_plus52, H1 by done. done.
Qed.

Lemma leadId_and_jid_witness :
  Server.e164ToLeadId (lit "+525512345678") = lit "525512345678@s.whatsapp.net"
  ∧ e164ToJid (lit "+525512345678") = lit "5215512345678@s.whatsapp.net"
  ∧ Server.e164ToLeadId (lit "+5215512345678") = e164ToJid (lit "+5215512345678").
Proof.
  destruct (leadId_and_jid (lit "+525512345678")) as [_ Hdiff].
  destruct (Hdiff (lit "5512345678")) as [H1 H2]; try reflexivity.
  split; [exact H1|]. split; [exact H2|].
  apply (proj2 (proj1 (leadId_and_jid (lit "+5215512345678")))). reflexivity.
Defined.

End PhoneMore.

(** ** Trimming, first names and plain templates *)

Section RenderMore.

Import Scheduler.

Implicit Types s t n a b : jsstring.
Implicit Types lead : Lead.

Lemma trimStart_nil_iff s : trimStart s = [] ↔ forallb is_space s = true.
Proof.
  induction s as [|c s IH]; simpl; [done|].
  destruct (is_space c); simpl; [done|]. split; done.
Qed.

Lemma trimStart_head s c r : trimStart s = c :: r → is_space c = false.
Proof.
  induction s as [|x s IH]; simpl; [done|].
  destruct (is_space x) eqn:Hx; [done|]. by intros [= <- _].
Qed.

Lemma trimStart_keep c s : is_space c = false → trimStart (c :: s) = c :: s.
Proof. intros H. simpl. by rewrite H. Qed.

Lemma trimStart_snoc s c :
  is_space c = false → trimStart (s ++ [c]) = trimStart s ++ [c].
Proof.
  intros Hc. induction s as [|x s IH]; simpl.
  - by rewrite Hc.
  - by destruct (is_space x).
Qed.

Lemma trimStart_idempotent s : trimStart (trimStart s) = trimStart s.
Proof.
  destruct (trimStart s) as [|c r] eqn:H; [done|].
  apply trimStart_keep. by apply trimStart_head in H.
Qed.

Lemma trimEnd_keep c s : is_space c = false → trimEnd (c :: s) = c :: trimEnd s.
Proof.
  intros Hc. unfold trimEnd. simpl.
  by rewrite trimStart_snoc, rev_unit.
Qed.

Lemma trimEnd_idempotent s : trimEnd (trimEnd s) = trimEnd s.
Proof. unfold trimEnd. by rewrite rev_involutive, trimStart_idempotent. Qed.

(** What [trim] gives: nothing for a blank string, and otherwise a string
    that begins with the first code unit that is not white space. *)
Lemma trim_cases s :
  (forallb is_space s = true ∧ trim s = [])
  ∨ (∃ c r, trimStart s = c :: r ∧ is_space c = false ∧ trim s = c :: trimEnd r).
Proof.
  unfold trim. destruct (trimStart s) as [|c r] eqn:H.
  - left. split; [by apply trimStart_nil_iff|done].
  - right. exists c, r. pose proof (trimStart_head _ _ _ H) as Hc.
    split; [done|]. split; [done|]. by apply trimEnd_keep.
Qed.

Lemma trim_idempotent s : trim (trim s) = trim s.
Proof.
  destruct (trim_cases s) as [[_ ->]|(c & r & _ & Hc & Ht)]; [done|].
  rewrite Ht. unfold trim. rewrite (trimStart_keep _ _ Hc).
  rewrite <- (trimEnd_keep _ _ Hc). apply trimEnd_idempotent.
Qed.

Lemma trimStart_Forall (P : N → Prop) s : Forall P s → Forall P (trimStart s).
Proof.
  induction 1 as [|c s Hc Hs IH]; simpl; [done|].
  destruct (is_space c); [done|]. by constructor.
Qed.

Lemma trim_Forall (P : N → Prop) s : Forall P s → Forall P (trim s).
Proof.
  intros H. unfold trim, trimEnd.
  apply List.Forall_rev, trimStart_Forall, List.Forall_rev.
  by apply trimStart_Forall.
Qed.

Lemma trimStart_no_space s :
  forallb (λ c, negb (is_space c)) s = true → trimStart s = s.
Proof.
  destruct s as [|c s]; simpl; [done|].
  intros [Hc _]%andb_prop. by destruct (is_space c).
Qed.

Lemma forallb_rev' (f : N → bool) s : forallb f (rev s) = forallb f s.
Proof.
  induction s as [|c s IH]; simpl; [done|].
  rewrite List.forallb_app, IH. simpl. rewrite andb_true_r. apply andb_comm.
Qed.

Lemma trim_no_space s :
  forallb (λ c, negb (is_space c)) s = true → trim s = s.
Proof.
  intros H. unfold trim, trimEnd. rewrite (trimStart_no_space s H).
  rewrite trimStart_no_space by by rewrite forallb_rev'.
  apply rev_involutive.
Qed.

Lemma split_space_first_no_space s :
  forallb (λ c, negb (is_space c)) s = true → split_space_first s = s.
Proof.
  induction s as [|c s IH]; simpl; [done|].
  intros [Hc Hs]%andb_prop. destruct (is_space c); [done|]. by rewrite IH.
Qed.

(** X7.  [firstName] never has white space in it, it is empty exactly for
    a name made of white space only (the empty name included), and it maps
    what it returns to itself. *)
Theorem firstName_spec n :
  forallb (λ c, negb (is_space c)) (firstName n) = true
  ∧ (firstName n = [] ↔ forallb is_space n = true)
  ∧ firstName (firstName n) = firstName n.
Proof.
  assert (forallb (λ c, negb (is_space c)) (firstName n) = true) as Hns.
  { apply (split_space_first_token (trim n)). }
  split; [done|]. split.
  - unfold firstName.
    destruct (trim_cases n) as [[Hall ->]|(c & r & Hs & Hc & ->)].
    + done.
    + simpl. rewrite Hc. split; [done|].
      intros Hall%trimStart_nil_iff. congruence.
  - unfold firstName at 1.
    by rewrite (trim_no_space _ Hns), (split_space_first_no_space _ Hns).
Qed.

(** X8.  Text that has no opening brace in it goes through
    [replacePlaceholders] as it is, whatever the lead and whatever follows
    it; a template without braces is returned unchanged. *)
Theorem replacePlaceholders_plain_prefix a b lead :
  Forall (λ c, c ≠ 123) a →
  replacePlaceholders (a ++ b) lead = a ++ replacePlaceholders b lead
  ∧ replacePlaceholders a lead = a.
Proof.
  intros Ha. split; [|by apply replacePlaceholders_plain].
  induction Ha as [|c a Hc _ IH]; [done|]. simpl.
  rewrite replacePlaceholders_literal by by apply exec_placeholder_other.
  by rewrite IH.
Qed.

Lemma replacePlaceholders_plain_prefix_witness :
  let lead : Lead := {[ lit "ciudad" := lit "Leon" ]} in
  replacePlaceholders (lit "Hola, de } " ++ lit "{{ciudad}}") lead
  = lit "Hola, de } " ++ replacePlaceholders (lit "{{ciudad}}") lead
  ∧ replacePlaceholders (lit "Hola, de } ") lead = lit "Hola, de } ".
Proof.
  intros lead.
  apply (replacePlaceholders_plain_prefix (lit "Hola, de } ") (lit "{{ciudad}}") lead).
  repeat constructor; by vm_compute.
Defined.

End RenderMore.

(** ** The dispatcher: what it sends, what it leaves alone *)

Section DispatchMore.

Import Scheduler.

Implicit Types w : World.
Implicit Types lead : Lead.
Implicit Types mensaje : option Mensaje.
Implicit Types sock : Sock.

Ltac decide_labels :=
  repeat match goal with
  | |- context [eqb (lit ?a) (lit ?b)] =>
      let v := eval vm_compute in (eqb (lit a) (lit b)) in
      change (eqb (lit a) (lit b)) with v
  end; cbv iota.

(** The content of a known type is trimmed. *)
Lemma content_to_send_trimmed e164 lead mensaje content :
  Spec.content_to_send e164 lead mensaje = Some content → trim content = content.
Proof.
  unfold Spec.content_to_send, formulario_text.
  destruct (eqb _ _).
  - destruct (encodeURIComponent _); [|done].
    intros [= <-]. apply trim_idempotent.
  - intros [= <-]. apply trim_idempotent.
Qed.

(** What a known type does to the state: it records the send of its
    content, when there is some, and touches nothing else. *)
Lemma dispatch_known_run sock e164 lead mensaje w :
  mensaje_tipo mensaje ∈ Spec.known_types →
  ∃ payload,
    (∀ content, Spec.payload_content (payload content) = content)
    ∧ sent (dispatch sock e164 lead mensaje w).2
      = sent w ++ match Spec.content_to_send e164 lead mensaje with
                  | Some content =>
                      Spec.outbound (e164ToJid e164) payload content
                  | None => []
                  end
    ∧ console (dispatch sock e164 lead mensaje w).2 = console w
    ∧ taskLocks (dispatch sock e164 lead mensaje w).2 = taskLocks w
    ∧ clock (dispatch sock e164 lead mensaje w).2 = clock w.
Proof.
  unfold Spec.known_types, Spec.content_to_send.
  rewrite !elem_of_cons, elem_of_nil.
  intros [H|[H|[H|[H|[H|[]]]]]].
  - exists (λ text, PText text false). split; [done|].
    rewrite dispatch_texto, H by done. decide_labels.
    apply (send_if_truthy_run sock _ (λ text, PText text false)).
  - exists (λ text, PText text false). split; [done|].
    rewrite dispatch_formulario, H by done. decide_labels.
    destruct (formulario_text _ _ _) as [text|].
    + apply (send_if_truthy_run sock _ (λ text, PText text false)).
    + simpl. by rewrite app_nil_r.
  - exists (λ url, PAudio url true). split; [done|].
    rewrite dispatch_audio, H by done. decide_labels.
    apply (send_if_truthy_run sock _ (λ url, PAudio url true)).
  - exists (λ url, PImage url). split; [done|].
    rewrite dispatch_imagen, H by done. decide_labels.
    apply (send_if_truthy_run sock _ (λ url, PImage url)).
  - exists (λ url, PVideo url). split; [done|].
    rewrite dispatch_video, H by done. decide_labels.
    apply (send_if_truthy_run sock _ (λ url, PVideo url)).
Qed.

(** The three ways [enviarMensaje] can go before the [switch]. *)
Lemma enviarMensaje_try_cases parse sockopt lead mensaje :
  (sockopt = None
   ∧ enviarMensaje_try parse sockopt lead mensaje = console_write WarnNoSocket)
  ∨ (sockopt ≠ None ∧ toE164 parse (lead_phone lead) = []
     ∧ enviarMensaje_try parse sockopt lead mensaje = console_write WarnNoPhone)
  ∨ (∃ sock, sockopt = Some sock ∧ toE164 parse (lead_phone lead) ≠ []
       ∧ enviarMensaje_try parse sockopt lead mensaje
         = dispatch sock (toE164 parse (lead_phone lead)) lead mensaje).
Proof.
  destruct sockopt as [sock|]; [|by left].
  destruct (decide (toE164 parse (lead_phone lead) = [])) as [He|He].
  - right; left. split; [done|]. split; [done|].
    unfold enviarMensaje_try. by rewrite He.
  - right; right. exists sock. split; [done|]. split; [done|].
    by apply enviarMensaje_try_reached.
Qed.

(** X9.  Whatever [enviarMensaje] hands to the channel is addressed to the
    channel address of the lead's own phone, and its text or media
    reference is not empty and has no white space at either end. *)
Theorem enviarMensaje_sends_trimmed_to_lead parse sockopt lead mensaje w :
  let jid := e164ToJid (toE164 parse (lead_phone lead)) in
  ∃ l, sent (enviarMensaje parse sockopt lead mensaje w).2 = sent w ++ l
    ∧ Forall (λ x, x.1 = jid
                   ∧ Spec.payload_content x.2 ≠ []
                   ∧ trim (Spec.payload_content x.2) = Spec.payload_content x.2) l.
Proof.
  intros jid. rewrite enviarMensaje_sent.
  destruct (enviarMensaje_try_cases parse sockopt lead mensaje)
    as [[_ ->]|[(_ & _ & ->)|(sock & _ & He & ->)]].
  - exists []. simpl. by rewrite app_nil_r.
  - exists []. simpl. by rewrite app_nil_r.
  - destruct (decide (mensaje_tipo mensaje ∈ Spec.known_types)) as [Hk|Hk]; cycle 1.
    { exists []. rewrite dispatch_unknown by done. simpl. by rewrite app_nil_r. }
    destruct (dispatch_known_run sock (toE164 parse (lead_phone lead)) lead
                mensaje w Hk) as (payload & Hpay & Hsent & _).
    eexists. split; [exact Hsent|].
    destruct (Spec.content_to_send _ _ _) as [content|] eqn:Hc; [|done].
    unfold Spec.outbound. destruct (truthy content) eqn:Ht; [|done].
    constructor; [|done]. simpl. rewrite Hpay.
    split; [done|]. split; [by apply truthy_true|].
    by apply content_to_send_trimmed in Hc.
Qed.

(** X10.  A known type whose content is empty after trimming is passed
    over in silence: nothing is sent and nothing is written to the console;
    the state is the one before the call. *)
Theorem enviarMensaje_empty_content_silent parse sock lead mensaje w :
  let e164 := toE164 parse (lead_phone lead) in
  e164 ≠ [] → mensaje_tipo mensaje ∈ Spec.known_types →
  Spec.content_to_send e164 lead mensaje = Some [] →
  enviarMensaje parse (Some sock) lead mensaje w = (Return tt, w).
Proof.
  intros e164 He Hk Hc.
  unfold enviarMensaje, try_catch.
  rewrite enviarMensaje_try_reached by done. fold e164.
  revert Hk Hc. unfold Spec.known_types, Spec.content_to_send.
  rewrite !elem_of_cons, elem_of_nil.
  intros [H|[H|[H|[H|[H|[]]]]]]; rewrite H; decide_labels.
  - intros [= Ht]. rewrite dispatch_texto by done. simpl. by rewrite Ht.
  - intros Ht. rewrite dispatch_formulario by done. by rewrite Ht.
  - intros [= Ht]. rewrite dispatch_audio by done. simpl. by rewrite Ht.
  - intros [= Ht]. rewrite dispatch_imagen by done. simpl. by rewrite Ht.
  - intros [= Ht]. rewrite dispatch_video by done. simpl. by rewrite Ht.
Qed.

Lemma enviarMensaje_empty_content_silent_witness :
  let lead : Lead := {[ lit "telefono" := lit "5512345678" ]} in
  let sock := mkSock (λ _ _, Some (Failure "connection closed")) in
  let w0 := mkWorld ∅ 1700000000000 [] [] in
  let mensaje := Some (mkMensaje (Some (lit "AUDIO")) (Some (lit "  {{nota}} "))) in
  enviarMensaje national_parser (Some sock) lead mensaje w0 = (Return tt, w0).
Proof.
  intros lead sock w0 mensaje.
  apply (enviarMensaje_empty_content_silent national_parser sock lead mensaje w0).
  - by vm_compute.
  - unfold Spec.known_types. rewrite !elem_of_cons. right; right; left. reflexivity.
  - reflexivity.
Defined.

(** X11.  [enviarMensaje] never touches the task locks or the clock, and
    it writes at most one line to the console. *)
Theorem enviarMensaje_frame parse sockopt lead mensaje w :
  let w' := (enviarMensaje parse sockopt lead mensaje w).2 in
  taskLocks w' = taskLocks w ∧ clock w' = clock w
  ∧ ∃ lines, console w' = console w ++ lines ∧ (length lines ≤ 1)%nat.
Proof.
  intros w'. subst w'. rewrite enviarMensaje_catch.
  destruct (enviarMensaje_try_cases parse sockopt lead mensaje)
    as [[_ ->]|[(_ & _ & ->)|(sock & _ & He & ->)]].
  - simpl. split; [done|]. split; [done|]. exists [WarnNoSocket].
    split; [done|simpl; lia].
  - simpl. split; [done|]. split; [done|]. exists [WarnNoPhone].
    split; [done|simpl; lia].
  - destruct (decide (mensaje_tipo mensaje ∈ Spec.known_types)) as [Hk|Hk]; cycle 1.
    { rewrite dispatch_unknown by done. simpl.
      split; [done|]. split; [done|]. eexists [_].
      split; [done|simpl; lia]. }
    destruct (dispatch_known_run sock (toE164 parse (lead_phone lead)) lead
                mensaje w Hk) as (payload & _ & _ & Hcon & Hlocks & Hclock).
    destruct (dispatch sock _ lead mensaje w) as [[[]|err] w1]; simpl in *.
    + split; [done|]. split; [done|]. exists [].
      split; [by rewrite app_nil_r|simpl; lia].
    + split; [done|]. split; [done|]. eexists [_].
      split; [by rewrite Hcon|simpl; lia].
Qed.

Lemma js_or_first (a b : option jsstring) t :
  a = Some t → t ≠ [] → js_or a b = Some t.
Proof. intros -> Hne. by destruct t. Qed.

Lemma js_or_skip (a b : option jsstring) : or_empty a = [] → js_or a b = b.
Proof. by destruct a as [[|c t]|]. Qed.

(** X12.  The phone of a lead is its [telefono]; its [phone] when
    [telefono] is missing or empty; its [whatsapp] when both are. *)
Theorem lead_phone_priority lead :
  (∀ t, lead !! lit "telefono" = Some t → t ≠ [] → lead_phone lead = Some t)
  ∧ (∀ p, or_empty (lead !! lit "telefono") = [] →
       lead !! lit "phone" = Some p → p ≠ [] → lead_phone lead = Some p)
  ∧ (or_empty (lead !! lit "telefono") = [] →
     or_empty (lead !! lit "phone") = [] →
     lead_phone lead = lead !! lit "whatsapp").
Proof.
  unfold lead_phone. split; [|split].
  - intros t Ht Hne. apply js_or_first; [|done]. by apply js_or_first.
  - intros p Htel Hp Hne. apply js_or_first; [|done].
    etrans; [apply js_or_skip; exact Htel|exact Hp].
  - intros Htel Hph. apply js_or_skip.
    etrans; [|exact Hph]. f_equal. apply js_or_skip. exact Htel.
Qed.

Lemma lead_phone_priority_witness :
  lead_phone {[ lit "telefono" := lit "551"; lit "phone" := lit "552" ]}
  = Some (lit "551")
  ∧ lead_phone {[ lit "telefono" := []; lit "phone" := lit "552";
                  lit "whatsapp" := lit "553" ]} = Some (lit "552")
  ∧ lead_phone {[ lit "phone" := []; lit "whatsapp" := lit "553" ]}
    = Some (lit "553").
Proof.
  split; [|split].
  - apply (proj1 (lead_phone_priority
                    {[ lit "telefono" := lit "551"; lit "phone" := lit "552" ]}));
      by vm_compute.
  - apply (proj1 (proj2 (lead_phone_priority
                    {[ lit "telefono" := []; lit "phone" := lit "552";
                       lit "whatsapp" := lit "553" ]}))); by vm_compute.
  - etrans; [apply (proj2 (proj2 (lead_phone_priority
                      {[ lit "phone" := []; lit "whatsapp" := lit "553" ]})))|];
      by vm_compute.
Defined.

End DispatchMore.

(** ** The text of a form, again *)

Section FormMore.

Import Scheduler.

Implicit Types s : jsstring.
Implicit Types lead : Lead.

(** No line feed is left by [replace(/\r?\n/g, ' ')]. *)
Lemma replace_newlines_no_lf s : Forall (λ c, c ≠ 10) (replace_newlines s).
Proof.
  remember (length s) as n eqn:Hn. revert s Hn.
  induction n as [n IH] using lt_wf_ind. intros s ->.
  destruct s as [|c s]; simpl; [done|].
  destruct (N.eqb_spec c 10) as [->|Hc].
  { constructor; [done|]. eapply (IH (length s)); [simpl; lia|done]. }
  destruct (N.eqb_spec c 13) as [->|Hc'].
  - destruct s as [|d s]; [by repeat constructor|].
    destruct (N.eqb_spec d 10) as [->|Hd].
    + constructor; [done|]. eapply (IH (length s)); [simpl; lia|done].
    + constructor; [done|]. eapply (IH (length (d :: s))); [simpl; lia|done].
  - constructor; [done|]. eapply (IH (length s)); [simpl; lia|done].
Qed.

(** X13.  The text of a form has no line feed in it: every line end of the
    template, with or without a carriage return before it, has become a
    space before the text is trimmed. *)
Theorem formulario_text_single_line e164 lead contenido text :
  formulario_text e164 lead contenido = Some text →
  Forall (λ c, c ≠ 10) text.
Proof.
  unfold formulario_text. destruct (encodeURIComponent _); [|done].
  intros [= <-]. apply trim_Forall, replace_newlines_no_lf.
Qed.

Lemma formulario_text_single_line_witness :
  let lead : Lead := {[ lit "nombre" := lit "Juan" ]} in
  formulario_text (lit "+525512345678") lead [72; 111; 108; 97; 13; 10; 123; 123; 110;
    111; 109; 98; 114; 101; 125; 125; 10; 13; 10] = Some (lit "Hola Juan")
  ∧ Forall (λ c, c ≠ 10) (lit "Hola Juan").
Proof.
  intros lead. split; [reflexivity|].
  apply (formulario_text_single_line (lit "+525512345678") lead
           [72; 111; 108; 97; 13; 10; 123; 123; 110; 111; 109; 98; 114; 101; 125;
            125; 10; 13; 10]).
  reflexivity.
Defined.

(** X14.  A form replaces nothing but [{{telefono}}] and [{{nombre}}]: a
    template that has neither is sent as it is written, line ends replaced
    and ends trimmed, so [{{ciudad}}] stays [{{ciudad}}].  The name of the
    lead is URL-encoded all the same: when that throws, there is no text at
    all. *)
Theorem formulario_text_other_placeholders e164 lead contenido :
  includes (lit "{{telefono}}") contenido = false →
  includes (lit "{{nombre}}") contenido = false →
  formulario_text e164 lead contenido
  = match encodeURIComponent (or_empty (lead !! lit "nombre")) with
    | Some _ => Some (trim (replace_newlines contenido))
    | None => None
    end.
Proof.
  intros HT HN. unfold formulario_text. rewrite or_empty_Some.
  destruct (encodeURIComponent _) as [enc|]; [|done].
  by rewrite (replace_absent _ _ _ HT), (replace_absent _ _ _ HN).
Qed.

Lemma formulario_text_other_placeholders_witness :
  let lead : Lead := {[ lit "nombre" := lit "Juan"; lit "ciudad" := lit "Leon" ]} in
  let unnamed : Lead := {[ lit "nombre" := [55296]; lit "ciudad" := lit "Leon" ]} in
  formulario_text (lit "+525512345678") lead (lit " Vives en {{ciudad}}? ")
  = Some (lit "Vives en {{ciudad}}?")
  ∧ formulario_text (lit "+525512345678") unnamed (lit " Vives en {{ciudad}}? ")
    = None
  ∧ replacePlaceholders (lit " Vives en {{ciudad}}? ") lead
    = lit " Vives en Leon? ".
Proof.
  intros lead unnamed. split; [|split; [|reflexivity]].
  - etrans; [apply (formulario_text_other_placeholders (lit "+525512345678") lead
                      (lit " Vives en {{ciudad}}? ")); reflexivity|].
    reflexivity.
  - etrans; [apply (formulario_text_other_placeholders (lit "+525512345678")
                      unnamed (lit " Vives en {{ciudad}}? ")); reflexivity|].
    reflexivity.
Defined.

End FormMore.

(** ** The task lock and the sequence processor, again *)

Section LockMore.

Import Scheduler.

Implicit Types taskName other : jsstring.
Implicit Types w : World.
Implicit Types fn : M Z.
Implicit Types Q : QueueModule.

(** X15.  An entry as old as the time-out or older does not hold the lock:
    the call takes it over, runs the action and removes the entry. *)
Theorem withTaskLock_stale taskName timeoutMinutes fn w t :
  taskLocks w !! taskName = Some t →
  (timeoutMinutes * 60 * 1000 ≤ clock w - t)%Z →
  withTaskLock taskName timeoutMinutes fn w
  = let (r, w1) := fn (set_taskLocks (insert taskName (clock w)) w) in
    (r, set_taskLocks (delete taskName) w1).
Proof.
  intros Hl Hage. rewrite withTaskLock_unfold, Hl. unfold lock_is_fresh.
  apply Z.ltb_ge in Hage. rewrite Hage. by rewrite andb_false_r.
Qed.

Lemma withTaskLock_stale_witness :
  let x := lit "x" in
  let held := mkWorld {[ x := 1700000000000%Z ]} 1700000300000 [] [] in
  withTaskLock x 5 (ret 7%Z) held
  = (Return 7%Z,
     set_taskLocks (delete x) (set_taskLocks (insert x 1700000300000%Z) held)).
Proof.
  intros x held.
  apply (withTaskLock_stale x 5 (ret 7%Z) held 1700000000000%Z);
    [by vm_compute|simpl; lia].
Defined.

(** X16.  A call of [withTaskLock] leaves the entries of the other tasks
    as its action leaves them: taking and releasing the lock of one task
    touches no other. *)
Theorem withTaskLock_other_names taskName other timeoutMinutes fn w :
  other ≠ taskName →
  (∀ w0, taskLocks (fn w0).2 !! other = taskLocks w0 !! other) →
  taskLocks (withTaskLock taskName timeoutMinutes fn w).2 !! other
  = taskLocks w !! other.
Proof.
  intros Hne Hfn. rewrite withTaskLock_unfold.
  destruct (lock_is_fresh _ _ _); [done|].
  specialize (Hfn (set_taskLocks (insert taskName (clock w)) w)).
  destruct (fn _) as [r w1]. simpl in *.
  rewrite lookup_delete_ne, Hfn by done. by rewrite lookup_insert_ne.
Qed.

Lemma withTaskLock_other_names_witness :
  let x := lit "x" in
  let y := lit "y" in
  let w0 := mkWorld {[ y := 1700000000000%Z ]} 1700000030000 [] [] in
  taskLocks (withTaskLock x 5 (ret 7%Z) w0).2 !! y = Some 1700000000000%Z.
Proof.
  intros x y w0.
  etrans; [apply (withTaskLock_other_names x y 5 (ret 7%Z) w0)|];
    by vm_compute.
Defined.

(** X17.  The lock is not re-entrant: a call made by the action for the
    task it is running under is passed over, so the outer call returns
    the 0 of the inner one.  (The clock is not at 0 and the time-out is
    positive.) *)
Theorem withTaskLock_reentrant taskName timeoutMinutes fn w :
  clock w ≠ 0%Z → (0 < timeoutMinutes)%Z →
  lock_is_fresh (taskLocks w !! taskName) (clock w) timeoutMinutes = false →
  withTaskLock taskName timeoutMinutes
    (withTaskLock taskName timeoutMinutes fn) w
  = (Return 0%Z,
     set_taskLocks (delete taskName)
       (add_console (LogLockBusy taskName)
          (set_taskLocks (insert taskName (clock w)) w))).
Proof.
  intros Hclock Htm Hfree. rewrite withTaskLock_unfold, Hfree.
  rewrite (withTaskLock_busy _ _ _ _ (clock w)); [done| |done|simpl; lia].
  simpl. apply lookup_insert_eq.
Qed.

Lemma withTaskLock_reentrant_witness :
  let x := lit "x" in
  let w0 := mkWorld ∅ 1700000000000 [] [] in
  let fn : M Z := console_write (LogProcessed 7) ;; ret 7%Z in
  withTaskLock x 5 (withTaskLock x 5 fn) w0
  = (Return 0%Z,
     set_taskLocks (delete x)
       (add_console (LogLockBusy x) (set_taskLocks (insert x 1700000000000%Z) w0))).
Proof.
  intros x w0 fn.
  apply (withTaskLock_reentrant x 5 fn w0); [simpl; lia|lia|by vm_compute].
Defined.



(** X19.  [processSequences] ends by an exception in one case only: called
    with [null], it throws the [TypeError] of the destructuring before it
    takes the lock, and changes nothing.  Called with anything else it
    returns, whatever [queue.js] exports and whatever the state: 0, or the
    count its queue function returned when called with the batch size, the
    lock free and just taken. *)
Theorem processSequences_throws_only_on_null Q w :
  let acquired := set_taskLocks (insert (lit "processSequences") (clock w)) w in
  processSequences Q NullOptions w = (Throw TypeError, w)
  ∧ ∀ options, options ≠ NullOptions →
      ∃ n, (processSequences Q options w).1 = Return n
        ∧ (n = 0%Z
           ∨ ∃ qfn batchSize,
               queue_function Q = Some qfn
               ∧ destructure_batchSize options = Some batchSize
               ∧ lock_is_fresh (taskLocks w !! lit "processSequences")
                   (clock w) 5 = false
               ∧ (qfn batchSize acquired).1 = Return n).
Proof.
  intros acquired. split; [done|]. intros options Hnull.
  assert (∃ b, processSequences Q options = processSequences Q (WithOptions b)
               ∧ destructure_batchSize options = Some (default 200%Z b))
    as (b & -> & Hb).
  { destruct options as [| |b]; [by exists None|done|by exists b]. }
  rewrite processSequences_with, withTaskLock_unfold.
  destruct (lock_is_fresh _ _ _) eqn:Hfree; [exists 0%Z; auto|].
  fold acquired. unfold processSequences_callback.
  destruct (queue_function Q) as [qfn|] eqn:HQ; [|exists 0%Z; auto].
  unfold try_catch, bind.
  destruct (qfn (default 200%Z b) acquired) as [[n|e] w1] eqn:Hfn.
  - exists n. split; [done|]. right. exists qfn, (default 200%Z b).
    by rewrite Hfn.
  - exists 0%Z. auto.
Qed.

Lemma processSequences_throws_only_on_null_witness :
  let down : Z → M Z := λ _, throw (Failure "queue unavailable") in
  let Q := mkQueue (Some down) None in
  let w0 := mkWorld ∅ 1700000000000 [] [] in
  ∃ n, (processSequences Q NoOptions w0).1 = Return n.
Proof.
  intros down Q w0.
  destruct (processSequences_throws_only_on_null Q w0) as [_ Hreturns].
  destruct (Hreturns NoOptions) as (n & Hn & _); [done|].
  by exists n.
Defined.







End LockMore.

(** ** The routes of the gateway *)

Section GatewayFacts.

Import Gateway.

Implicit Types parse : PhoneParser.
Implicit Types S : Services.
Implicit Types leadId message : option jsstring.
Implicit Types data : Lead.

Ltac split_calls H :=
  repeat match type of H with
  | _ ∈ _ :: _ => apply elem_of_cons in H as [H|H]
  | _ ∈ [] => by apply elem_of_nil in H
  end; try discriminate H.

(** The route past its first check, with the names the source gives. *)
Lemma send_message_unfold parse S leadId message :
  or_empty leadId ≠ [] → or_empty message ≠ [] →
  send_message parse S leadId message
  = let id := or_empty leadId in
    let text := or_empty message in
    match lead_get S id with
    | Throw err => ((500%Z, ErrorOf err), [LeadGet id])
    | Return None => ((404%Z, LeadNotFound), [LeadGet id])
    | Return (Some data) =>
        if negb (truthy (or_empty (Scheduler.lead_phone data)))
        then ((400%Z, LeadWithoutPhone), [LeadGet id])
        else
          let phone := Server.toE164 parse (Scheduler.lead_phone data) in
          match sendMessageToLead S phone text with
          | Throw err =>
              ((500%Z, ErrorOf err), [LeadGet id; SendMessageToLead phone text])
          | Return result =>
              match lead_set S id TouchLastMessage with
              | Some err =>
                  ((500%Z, ErrorOf err),
                   [LeadGet id; SendMessageToLead phone text;
                    LeadSetMerge id TouchLastMessage])
              | None =>
                  ((200%Z, OkResult result),
                   [LeadGet id; SendMessageToLead phone text;
                    LeadSetMerge id TouchLastMessage])
              end
          end
    end.
Proof.
  intros Hid%truthy_true Hmsg%truthy_true. unfold send_message.
  by rewrite Hid, Hmsg.
Qed.

Lemma send_message_no_leadId parse S leadId message :
  or_empty leadId = [] →
  send_message parse S leadId message = ((400%Z, MissingLeadIdOrMessage), []).
Proof. unfold send_message. by intros ->. Qed.

Lemma send_message_no_message parse S leadId message :
  or_empty message = [] →
  send_message parse S leadId message = ((400%Z, MissingLeadIdOrMessage), []).
Proof. unfold send_message. intros ->. simpl. by rewrite orb_true_r. Qed.

(** X23.  [POST /api/whatsapp/send-message] without a [leadId] or without
    a [message] (absent or empty) answers 400 and calls neither the
    database nor the channel. *)
Theorem send_message_missing_fields parse S leadId message :
  or_empty leadId = [] ∨ or_empty message = [] →
  send_message parse S leadId message = ((400%Z, MissingLeadIdOrMessage), []).
Proof.
  unfold send_message. intros [->| ->]; simpl; [done|].
  by rewrite orb_true_r.
Qed.

Lemma send_message_missing_fields_witness :
  let S := mkServices (λ _, Throw (Failure "unavailable"))
                      (λ _ _, Throw (Failure "not connected"))
                      (λ _ _, Some (Failure "unavailable")) in
  send_message national_parser S (Some (lit "lead-1")) None
  = ((400%Z, MissingLeadIdOrMessage), [])
  ∧ send_message national_parser S (Some []) (Some (lit "Hola"))
    = ((400%Z, MissingLeadIdOrMessage), []).
Proof.
  intros S. split.
  - apply (send_message_missing_fields national_parser S); by right.
  - apply (send_message_missing_fields national_parser S); by left.
Defined.

(** X24.  The route answers 200 exactly when the lead exists, has a phone,
    the channel accepted the message and the write to the lead went
    through.  When all of that holds the answer is 200 with the result of
    the channel, and the calls made are the read, the send to [toE164] of
    the lead's phone and the write, in that order; and an answer of 200 is
    given in no other case. *)
Theorem send_message_ok parse S leadId message :
  let id := or_empty leadId in
  let text := or_empty message in
  let answer := send_message parse S leadId message in
  (∀ data result,
     id ≠ [] → text ≠ [] →
     lead_get S id = Return (Some data) →
     or_empty (Scheduler.lead_phone data) ≠ [] →
     sendMessageToLead S (Server.toE164 parse (Scheduler.lead_phone data)) text
     = Return result →
     lead_set S id TouchLastMessage = None →
     answer
     = ((200%Z, OkResult result),
        [LeadGet id;
         SendMessageToLead (Server.toE164 parse (Scheduler.lead_phone data)) text;
         LeadSetMerge id TouchLastMessage]))
  ∧ (answer.1.1 = 200%Z →
     ∃ data result,
       id ≠ [] ∧ text ≠ []
       ∧ lead_get S id = Return (Some data)
       ∧ or_empty (Scheduler.lead_phone data) ≠ []
       ∧ sendMessageToLead S (Server.toE164 parse (Scheduler.lead_phone data)) text
         = Return result
       ∧ lead_set S id TouchLastMessage = None).
Proof.
  intros id text answer. subst answer. split.
  - intros data result Hid Htext Hget Hphone%truthy_true Hsend Hset.
    rewrite send_message_unfold by done. fold id text. cbv zeta.
    by rewrite Hget, Hphone, Hsend, Hset.
  - destruct (decide (id = [])) as [Hid|Hid].
    { rewrite send_message_no_leadId by done. done. }
    destruct (decide (text = [])) as [Htext|Htext].
    { rewrite send_message_no_message by done. done. }
    rewrite send_message_unfold by done. fold id text. cbv zeta.
    destruct (lead_get S id) as [[data|]|err] eqn:Hget; try done.
    destruct (truthy (or_empty (Scheduler.lead_phone data))) eqn:Hphone; [|done].
    simpl negb. cbv iota.
    destruct (sendMessageToLead S _ text) as [result|err] eqn:Hsend; [|done].
    destruct (lead_set S id TouchLastMessage) as [err|] eqn:Hset; [done|].
    intros _. exists data, result. by apply truthy_true in Hphone.
Qed.

Lemma send_message_ok_witness :
  let data : Lead := {[ lit "telefono" := lit "55 1234 5678" ]} in
  let S := mkServices (λ _, Return (Some data))
                      (λ _ _, Return (lit "id-1"))
                      (λ _ _, None) in
  send_message national_parser S (Some (lit "lead-1")) (Some (lit "Hola"))
  = ((200%Z, OkResult (lit "id-1")),
     [LeadGet (lit "lead-1");
      SendMessageToLead (lit "+525512345678") (lit "Hola");
      LeadSetMerge (lit "lead-1") TouchLastMessage]).
Proof.
  intros data S.
  apply (proj1 (send_message_ok national_parser S (Some (lit "lead-1"))
                  (Some (lit "Hola"))) data (lit "id-1")); by vm_compute.
Defined.

(** X25.  The route sends nothing for a lead that does not exist or has no
    phone, and writes to the lead only after the channel accepted the
    message: a call of [sendMessageToLead] is to [toE164] of the phone of
    the lead that was read, with the message as given, and a write means
    the send before it was fulfilled. *)
Theorem send_message_order parse S leadId message :
  let id := or_empty leadId in
  let text := or_empty message in
  let calls := (send_message parse S leadId message).2 in
  (∀ phone body, SendMessageToLead phone body ∈ calls →
     ∃ data, lead_get S id = Return (Some data)
       ∧ or_empty (Scheduler.lead_phone data) ≠ []
       ∧ phone = Server.toE164 parse (Scheduler.lead_phone data)
       ∧ body = text)
  ∧ (∀ id' patch, LeadSetMerge id' patch ∈ calls →
       ∃ phone result, SendMessageToLead phone text ∈ calls
         ∧ sendMessageToLead S phone text = Return result
         ∧ id' = id ∧ patch = TouchLastMessage).
Proof.
  intros id text calls. subst calls.
  destruct (decide (id = [])) as [Hid|Hid].
  { rewrite send_message_no_leadId by done. simpl.
    split; intros ? ? H; by apply elem_of_nil in H. }
  destruct (decide (text = [])) as [Htext|Htext].
  { rewrite send_message_no_message by done. simpl.
    split; intros ? ? H; by apply elem_of_nil in H. }
  rewrite send_message_unfold by done. fold id text. cbv zeta.
  destruct (lead_get S id) as [[data|]|err] eqn:Hget; simpl;
    try solve [split; intros ? ? H; split_calls H].
  destruct (truthy (or_empty (Scheduler.lead_phone data))) eqn:Hphone; simpl;
    [|solve [split; intros ? ? H; split_calls H]].
  apply truthy_true in Hphone.
  destruct (sendMessageToLead S _ text) as [result|err] eqn:Hsend; simpl.
  - destruct (lead_set S id TouchLastMessage) as [err|]; simpl; split.
    + intros phone body H. split_calls H. injection H as -> ->. by exists data.
    + intros id' patch H. split_calls H. injection H as -> ->.
      eexists _, result. split; [|done].
      apply elem_of_cons. right. apply elem_of_cons. by left.
    + intros phone body H. split_calls H. injection H as -> ->. by exists data.
    + intros id' patch H. split_calls H. injection H as -> ->.
      eexists _, result. split; [|done].
      apply elem_of_cons. right. apply elem_of_cons. by left.
  - split.
    + intros phone body H. split_calls H. injection H as -> ->. by exists data.
    + intros id' patch H. split_calls H.
Qed.

Lemma send_message_order_witness :
  let data : Lead := {[ lit "whatsapp" := lit "55 1234 5678" ]} in
  let S := mkServices (λ _, Return (Some data))
                      (λ _ _, Return (lit "id-1"))
                      (λ _ _, None) in
  (∃ data', lead_get S (lit "lead-1") = Return (Some data')
     ∧ or_empty (Scheduler.lead_phone data') ≠ []
     ∧ lit "+525512345678" = Server.toE164 national_parser (Scheduler.lead_phone data')
     ∧ lit "Hola" = lit "Hola")
  ∧ (∃ phone result,
       SendMessageToLead phone (lit "Hola")
       ∈ (send_message national_parser S (Some (lit "lead-1")) (Some (lit "Hola"))).2
       ∧ sendMessageToLead S phone (lit "Hola") = Return result
       ∧ lit "lead-1" = lit "lead-1" ∧ TouchLastMessage = TouchLastMessage).
Proof.
  intros data S.
  destruct (send_message_order national_parser S (Some (lit "lead-1"))
              (Some (lit "Hola"))) as [Hsend Hset].
  split.
  - apply (Hsend (lit "+525512345678") (lit "Hola")).
    apply elem_of_cons. right. apply elem_of_cons. by left.
  - apply (Hset (lit "lead-1") TouchLastMessage).
    apply elem_of_cons. right. apply elem_of_cons. right.
    apply elem_of_cons. by left.
Defined.

(** X26.  The route does not check what [toE164] gives: for a lead whose
    phone has no digit in it, the channel is called with the empty string
    for a phone. *)
Theorem send_message_phone_without_digits parse S leadId message data raw :
  or_empty leadId ≠ [] → or_empty message ≠ [] →
  lead_get S (or_empty leadId) = Return (Some data) →
  Scheduler.lead_phone data = Some raw → raw ≠ [] → strip_non_digits raw = [] →
  ∃ rest,
    (send_message parse S leadId message).2
    = LeadGet (or_empty leadId)
      :: SendMessageToLead [] (or_empty message) :: rest.
Proof.
  intros Hid Hmsg Hget Hphone Hraw Hdigits.
  rewrite send_message_unfold by done. cbv zeta. rewrite Hget, Hphone.
  rewrite or_empty_Some. apply truthy_true in Hraw. rewrite Hraw. simpl negb.
  cbv iota.
  assert (Server.toE164 parse (Some raw) = []) as ->.
  { unfold Server.toE164. by rewrite or_empty_Some, Hdigits. }
  destruct (sendMessageToLead S [] (or_empty message)); [|by eexists].
  destruct (lead_set S _ _); by eexists.
Qed.

Lemma send_message_phone_without_digits_witness :
  let data : Lead := {[ lit "telefono" := lit "s/n" ]} in
  let S := mkServices (λ _, Return (Some data))
                      (λ phone _, if truthy phone then Return (lit "id-1")
                                  else Throw (Failure "bad jid"))
                      (λ _ _, None) in
  send_message national_parser S (Some (lit "lead-1")) (Some (lit "Hola"))
  = ((500%Z, ErrorOf (Failure "bad jid")),
     [LeadGet (lit "lead-1"); SendMessageToLead [] (lit "Hola")]).
Proof.
  intros data S.
  destruct (send_message_phone_without_digits national_parser S
              (Some (lit "lead-1")) (Some (lit "Hola")) data (lit "s/n"))
    as [rest Hcalls]; try done; try reflexivity.
Defined.

(** X27.  A 500 does not mean the message was not sent: when the channel
    accepted the message and the write to the lead is rejected, the route
    answers 500 with the error of the write, after the send. *)
Theorem send_message_sent_then_failed parse S leadId message data result err :
  or_empty leadId ≠ [] → or_empty message ≠ [] →
  lead_get S (or_empty leadId) = Return (Some data) →
  or_empty (Scheduler.lead_phone data) ≠ [] →
  sendMessageToLead S (Server.toE164 parse (Scheduler.lead_phone data))
    (or_empty message) = Return result →
  lead_set S (or_empty leadId) TouchLastMessage = Some err →
  send_message parse S leadId message
  = ((500%Z, ErrorOf err),
     [LeadGet (or_empty leadId);
      SendMessageToLead (Server.toE164 parse (Scheduler.lead_phone data))
        (or_empty message);
      LeadSetMerge (or_empty leadId) TouchLastMessage]).
Proof.
  intros Hid Hmsg Hget Hphone%truthy_true Hsend Hset.
  rewrite send_message_unfold by done. cbv zeta.
  by rewrite Hget, Hphone, Hsend, Hset.
Qed.

Lemma send_message_sent_then_failed_witness :
  let data : Lead := {[ lit "phone" := lit "55 1234 5678" ]} in
  let S := mkServices (λ _, Return (Some data))
                      (λ _ _, Return (lit "id-1"))
                      (λ _ _, Some (Failure "deadline exceeded")) in
  send_message national_parser S (Some (lit "lead-1")) (Some (lit "Hola"))
  = ((500%Z, ErrorOf (Failure "deadline exceeded")),
     [LeadGet (lit "lead-1");
      SendMessageToLead (lit "+525512345678") (lit "Hola");
      LeadSetMerge (lit "lead-1") TouchLastMessage]).
Proof.
  intros data S.
  apply (send_message_sent_then_failed national_parser S (Some (lit "lead-1"))
           (Some (lit "Hola")) data (lit "id-1")); by vm_compute.
Defined.

(** X28.  [POST /api/whatsapp/mark-read] never reads and never sends: it
    makes one write, the reset of the unread count of the lead named, when
    a [leadId] is given, and none otherwise; it answers 200 exactly when
    that write was made and went through. *)
Theorem mark_read_spec S leadId :
  let id := or_empty leadId in
  let answer := mark_read S leadId in
  (id = [] → answer = ((400%Z, MissingLeadId), []))
  ∧ (id ≠ [] → answer.2 = [LeadSetMerge id ResetUnread])
  ∧ (answer.1.1 = 200%Z ↔ id ≠ [] ∧ lead_set S id ResetUnread = None).
Proof.
  intros id answer. subst answer. unfold mark_read. fold id.
  destruct id as [|c r] eqn:Hid; simpl.
  - split; [done|]. split; [done|]. split; [done|]. by intros [? _].
  - split; [done|].
    destruct (lead_set S (c :: r) ResetUnread); simpl;
      (split; [done|]); split; try done. by intros [_ ?].
Qed.

Lemma mark_read_spec_witness :
  let S := mkServices (λ _, Return None) (λ _ _, Return []) (λ _ _, None) in
  mark_read S None = ((400%Z, MissingLeadId), [])
  ∧ (mark_read S (Some (lit "lead-1"))).2
    = [LeadSetMerge (lit "lead-1") ResetUnread].
Proof.
  intros S. split.
  - by apply (mark_read_spec S None).
  - by apply (mark_read_spec S (Some (lit "lead-1"))).
Defined.

End GatewayFacts.
